(** * CARLA glue code: the C++ example client and the OpenDrive file lookup

    Two translation units are embedded here:

    - [Examples/CppClient/main.cpp]: argument parsing, random selection and
      the top-level exception handlers of the example client (module
      [CppClient]);
    - [Unreal/CarlaUE4/Plugins/Carla/Source/Carla/OpenDrive/OpenDrive.cpp]:
      the lookup and loading of [.xodr] files (module [OpenDrive]).

    C++ values are modelled as the code has them: [int], [unsigned],
    [size_t] and [uint16_t] are integers of [Z] with their wrap-around
    written out, [std::string] and [FString] are [string], a thrown
    exception is an [outcome], and calls into the client library, the
    standard output, the engine's file manager and its log are threaded
    through explicit state. *)

From Stdlib Require Import ZArith List String Ascii Bool Lia.
Import ListNotations.

Local Open Scope string_scope.
Local Open Scope Z_scope.

(** ** Characters and strings *)

Definition nl : string := String (ascii_of_nat 10) EmptyString.

Definition char_code (c : ascii) : Z := Z.of_N (N_of_ascii c).

(** ** Outcomes of C++ evaluation *)

(** The exception classes that occur: [TimeoutException] is
    [carla::client::TimeoutException]; [runtime_error], [invalid_argument]
    and [out_of_range] are the standard ones; [other_exception] stands for
    any further class derived from [std::exception] that the client library
    may throw.  All of these derive from [std::exception] and carry
    [what()]. *)
Inductive exn_class : Type :=
| TimeoutException
| runtime_error
| invalid_argument
| out_of_range
| other_exception.

(** A thrown object either derives from [std::exception] or does not. *)
Inductive exn : Type :=
| StdException (c : exn_class) (what : string)
| NonStdException.

(** Evaluation returns a value, throws, or has undefined behaviour (an
    access outside an array). *)
Inductive outcome (A : Type) : Type :=
| Ret (a : A)
| Throw (e : exn)
| Undefined.

Arguments Ret {A} a.
Arguments Throw {A} e.
Arguments Undefined {A}.

Definition obind {A B : Type} (o : outcome A) (k : A -> outcome B) : outcome B :=
  match o with
  | Ret a => k a
  | Throw e => Throw e
  | Undefined => Undefined
  end.

Declare Scope outcome_scope.
Delimit Scope outcome_scope with outcome.
Notation "x <- c ;; k" := (obind c (fun x => k))
  (at level 61, c at next level, right associativity) : outcome_scope.
Notation "c ;;; k" := (obind c (fun _ => k))
  (at level 61, right associativity) : outcome_scope.

Definition is_timeout (c : exn_class) : bool :=
  match c with TimeoutException => true | _ => false end.

(** ** Machine integers *)

Definition INT_MIN : Z := - 2 ^ 31.
Definition INT_MAX : Z := 2 ^ 31 - 1.

Definition in_int (v : Z) : bool := (INT_MIN <=? v) && (v <=? INT_MAX).

(** Conversion of an [int] to [unsigned int] (the usual arithmetic
    conversion in [argc == 1u]). *)
Definition to_unsigned (v : Z) : Z := v mod 2 ^ 32.

(** Conversion to [uint16_t]. *)
Definition to_uint16 (v : Z) : Z := v mod 2 ^ 16.

(** Subtraction in [size_t]. *)
Definition size_t_sub (a b : Z) : Z := (a - b) mod 2 ^ 64.

(** ** The macro [EXPECT_TRUE]

    [#define EXPECT_TRUE(pred) if (!(pred)) { throw std::runtime_error(#pred); }]
    The second argument is the stringified predicate. *)
Definition EXPECT_TRUE (pred : bool) (text : string) : outcome unit :=
  if pred then Ret tt else Throw (StdException runtime_error text).

(** ** [std::stoi]

    The standard library's [std::stoi(str)] with its defaults (no position
    output, base 10): [strtol] skips leading white space, takes an optional
    sign and then the longest run of decimal digits; without a digit no
    conversion is performed and [stoi] throws [std::invalid_argument]; a
    value outside [int] makes it throw [std::out_of_range].  Both
    exceptions carry the function's name as libstdc++ passes it. *)

Definition isspace (c : ascii) : bool :=
  (char_code c =? 32) || ((9 <=? char_code c) && (char_code c <=? 13)).

Definition isdigit (c : ascii) : bool :=
  (48 <=? char_code c) && (char_code c <=? 57).

Fixpoint skip_spaces (s : string) : string :=
  match s with
  | String c r => if isspace c then skip_spaces r else s
  | EmptyString => s
  end.

(** The value of the longest prefix of digits, continuing from [acc]. *)
Fixpoint digits_value (acc : Z) (s : string) : Z :=
  match s with
  | String c r =>
      if isdigit c then digits_value (10 * acc + (char_code c - 48)) r else acc
  | EmptyString => acc
  end.

Definition starts_with_digit (s : string) : bool :=
  match s with
  | String c _ => isdigit c
  | EmptyString => false
  end.

(** [strtol(s, &end, 10)] on the mathematical integers: [None] when no
    conversion could be performed ([end == s]). *)
Definition strtol10 (s : string) : option Z :=
  let s1 := skip_spaces s in
  let '(neg, s2) :=
    match s1 with
    | String "-" r => (true, r)
    | String "+" r => (false, r)
    | _ => (false, s1)
    end in
  if starts_with_digit s2
  then Some (if neg then - digits_value 0 s2 else digits_value 0 s2)
  else None.

Definition stoi (s : string) : outcome Z :=
  match strtol10 s with
  | None => Throw (StdException invalid_argument "stoi")
  | Some v =>
      if in_int v then Ret v else Throw (StdException out_of_range "stoi")
  end.

(** Decimal numerals, to state what [stoi] reads: the string of the digits
    [ds], most significant first, and the number it denotes. *)
Fixpoint numeral (ds : list nat) : string :=
  match ds with
  | [] => EmptyString
  | d :: r => String (ascii_of_nat (48 + d)) (numeral r)
  end.

Definition numeral_value (ds : list nat) : Z :=
  fold_left (fun acc d => 10 * acc + Z.of_nat d) ds 0.

Module CppClient.

Local Open Scope outcome_scope.

(** [argv[i]]: the run time passes [argc] strings; an access beyond them is
    undefined. *)
Definition argv_at (argv : list string) (i : nat) : outcome string :=
  match nth_error argv i with
  | Some s => Ret s
  | None => Undefined
  end.

(** [ParseArguments] (main.cpp, lines 70-77).  [argc] is an [int] compared
    with the [unsigned] literals [1u] and [3u]; the result is a
    [std::tuple<std::string, uint16_t>], so the [int] of [std::stoi] and
    the literal [2000u] are converted to [uint16_t]. *)
Definition ParseArguments (argc : Z) (argv : list string) : outcome (string * Z) :=
  EXPECT_TRUE ((to_unsigned argc =? 1) || (to_unsigned argc =? 3))
              "(argc == 1u) || (argc == 3u)" ;;;
  if to_unsigned argc =? 3 then
    host <- argv_at argv 1 ;;
    arg2 <- argv_at argv 2 ;;
    port <- stoi arg2 ;;
    Ret (host, to_uint16 port)
  else
    Ret ("localhost", to_uint16 2000).

(** [RandomChoice] (main.cpp, lines 41-46).  The range is indexed with the
    value drawn by a [std::uniform_int_distribution<size_t>] built on
    [0u] and [range.size() - 1u]; the generator is passed by reference, so
    its new state is returned as well.  [dist a b g] is the value the
    distribution on [a, b] draws from generator state [g], with the state
    it leaves. *)
Section RandomChoice.
Context {RNG T : Type}.
Variable dist : Z -> Z -> RNG -> Z * RNG.

Definition size (range : list T) : Z := Z.of_nat (List.length range).

(** [range[i]] for a [size_t] index. *)
Definition at_index (range : list T) (i : Z) : outcome T :=
  if (0 <=? i) && (i <? size range) then
    match nth_error range (Z.to_nat i) with
    | Some x => Ret x
    | None => Undefined
    end
  else Undefined.

Definition RandomChoice (range : list T) (generator : RNG) : outcome T * RNG :=
  match EXPECT_TRUE (0 <? size range) "range.size() > 0u" with
  | Ret _ =>
      let '(i, generator') := dist 0 (size_t_sub (size range) 1) generator in
      (at_index range i, generator')
  | Throw e => (Throw e, generator)
  | Undefined => (Undefined, generator)
  end.
End RandomChoice.

(** *** The client library and the process

    The client library ([carla::client]), the random device and the
    standard output are outside this file's code.  A call into the library
    acts on the state [Sim] of the connection and the simulator and may
    throw; the types of its handles are left open. *)
Section Client.
Variables Sim RNG Client World BlueprintLibrary ActorBlueprint
          ActorAttribute Map Transform Actor Control : Type.

Definition call (A : Type) : Type := Sim -> outcome A * Sim.

Record Library : Type := {
  random_device : call Z;
  mt19937_64 : Z -> RNG;
  uniform_int_distribution : Z -> Z -> RNG -> Z * RNG;
  make_Client : string -> Z -> call Client;
  SetTimeout : Client -> Z -> call unit;
  GetClientVersion : Client -> call string;
  GetServerVersion : Client -> call string;
  GetAvailableMaps : Client -> call (list string);
  LoadWorld : Client -> string -> call World;
  GetBlueprintLibrary : World -> call BlueprintLibrary;
  Filter : BlueprintLibrary -> string -> call (list ActorBlueprint);
  ContainsAttribute : ActorBlueprint -> string -> call bool;
  GetAttribute : ActorBlueprint -> string -> call ActorAttribute;
  GetRecommendedValues : ActorAttribute -> call (list string);
  SetAttribute : ActorBlueprint -> string -> string -> call ActorBlueprint;
  GetMap : World -> call Map;
  GetRecommendedSpawnPoints : Map -> call (list Transform);
  SpawnActor : World -> ActorBlueprint -> Transform -> call Actor;
  GetDisplayId : Actor -> call string;
  (** a default [cc::Vehicle::Control] with [throttle = 1.0f] *)
  full_throttle : Control;
  ApplyControl : Actor -> Control -> call unit;
  GetSpectator : World -> call Actor;
  (** the four floating-point updates of lines 131-134 *)
  spectator_view : Transform -> Transform;
  SetTransform : Actor -> Transform -> call unit;
  Destroy : Actor -> call bool
}.

(** The process: what was written to [std::cout], and the outside world. *)
Record Process : Type := mkProcess { stdout : string; sim : Sim }.

Definition M (A : Type) : Type := Process -> outcome A * Process.

Definition ret {A} (a : A) : M A := fun p => (Ret a, p).

Definition bind {A B} (m : M A) (k : A -> M B) : M B :=
  fun p =>
    match m p with
    | (Ret a, p') => k a p'
    | (Throw e, p') => (Throw e, p')
    | (Undefined, p') => (Undefined, p')
    end.

Definition lift {A} (o : outcome A) : M A := fun p => (o, p).

Definition invoke {A} (c : call A) : M A :=
  fun p => let '(o, s) := c (sim p) in (o, mkProcess (stdout p) s).

(** [std::cout << s] *)
Definition print (s : string) : M unit :=
  fun p => (Ret tt, mkProcess (stdout p ++ s) (sim p)).

(** To state that a computation only appends to the standard output. *)
Definition appends {A} (m : M A) : Prop :=
  forall p o p', m p = (o, p') -> exists out, stdout p' = stdout p ++ out.

Definition choose {T} (lib : Library) (range : list T) (rng : RNG) : M (T * RNG) :=
  fun p =>
    match RandomChoice (uniform_int_distribution lib) range rng with
    | (Ret x, rng') => (Ret (x, rng'), p)
    | (Throw e, _) => (Throw e, p)
    | (Undefined, _) => (Undefined, p)
    end.

Declare Scope proc_scope.
Delimit Scope proc_scope with proc.
Notation "x <- c ;; k" := (bind c (fun x => k))
  (at level 61, c at next level, right associativity) : proc_scope.
Notation "' pat <- c ;; k" := (bind c (fun x => match x with pat => k end))
  (at level 61, pat pattern, c at next level, right associativity) : proc_scope.
Notation "c ;;; k" := (bind c (fun _ => k))
  (at level 61, right associativity) : proc_scope.
Local Open Scope proc_scope.

Variable lib : Library.

(** The [try] block of [main] (lines 80-168).  Insertions into
    [std::cout] are taken left to right. *)
Definition main_try (argc : Z) (argv : list string) : M unit :=
  '(host, port) <- lift (ParseArguments argc argv) ;;
  seed <- invoke (random_device lib) ;;
  let rng := mt19937_64 lib seed in
  client <- invoke (make_Client lib host port) ;;
  invoke (SetTimeout lib client 40) ;;;
  print "Client API version : " ;;;
  cv <- invoke (GetClientVersion lib client) ;;
  print cv ;;; print nl ;;;
  print "Server API version : " ;;;
  sv <- invoke (GetServerVersion lib client) ;;
  print sv ;;; print nl ;;;
  maps <- invoke (GetAvailableMaps lib client) ;;
  '(town_name, rng) <- choose lib maps rng ;;
  print "Loading world: " ;;; print town_name ;;; print nl ;;;
  world <- invoke (LoadWorld lib client town_name) ;;
  blueprint_library <- invoke (GetBlueprintLibrary lib world) ;;
  vehicles <- invoke (Filter lib blueprint_library "vehicle") ;;
  '(blueprint, rng) <- choose lib vehicles rng ;;
  has_color <- invoke (ContainsAttribute lib blueprint "color") ;;
  '(blueprint, rng) <-
    (if has_color : bool then
       attribute <- invoke (GetAttribute lib blueprint "color") ;;
       values <- invoke (GetRecommendedValues lib attribute) ;;
       '(color, rng) <- choose lib values rng ;;
       blueprint <- invoke (SetAttribute lib blueprint "color" color) ;;
       ret (blueprint, rng)
     else ret (blueprint, rng)) ;;
  map <- invoke (GetMap lib world) ;;
  points <- invoke (GetRecommendedSpawnPoints lib map) ;;
  '(transform, rng) <- choose lib points rng ;;
  actor <- invoke (SpawnActor lib world blueprint transform) ;;
  print "Spawned " ;;;
  id <- invoke (GetDisplayId lib actor) ;;
  print id ;;; print nl ;;;
  let vehicle := actor in
  invoke (ApplyControl lib vehicle (full_throttle lib)) ;;;
  spectator <- invoke (GetSpectator lib world) ;;
  let transform := spectator_view lib transform in
  invoke (SetTransform lib spectator transform) ;;;
  invoke (Destroy lib vehicle) ;;;
  print "Actors destroyed." ;;; print nl.

(** [main] (lines 79-179): the handlers are tried in order, the first for
    [cc::TimeoutException], the second for every [std::exception]; an
    exception of another type leaves [main]; falling off the end of
    [main] returns 0. *)
Definition main (argc : Z) (argv : list string) : M Z :=
  fun p =>
    match main_try argc argv p with
    | (Ret _, p') => (Ret 0, p')
    | (Throw (StdException c what), p') =>
        if is_timeout c then
          (print nl ;;; print what ;;; print nl ;;; ret 1) p'
        else
          (print (nl ++ "Exception: ") ;;; print what ;;; print nl ;;; ret 2) p'
    | (Throw NonStdException, p') => (Throw NonStdException, p')
    | (Undefined, p') => (Undefined, p')
    end.
End Client.

Arguments mkProcess {Sim} stdout sim.
Arguments stdout {Sim} p.
Arguments sim {Sim} p.
Arguments ret {Sim A} a p.
Arguments bind {Sim A B} m k p.
Arguments lift {Sim A} o p.
Arguments invoke {Sim A} c p.
Arguments print {Sim} s p.
Arguments appends {Sim A} m.
Arguments choose {Sim RNG Client World BlueprintLibrary ActorBlueprint
                  ActorAttribute Map Transform Actor Control T} lib range rng p.
Arguments main_try {Sim RNG Client World BlueprintLibrary ActorBlueprint
                    ActorAttribute Map Transform Actor Control} lib argc argv p.
Arguments main {Sim RNG Client World BlueprintLibrary ActorBlueprint
                ActorAttribute Map Transform Actor Control} lib argc argv p.

End CppClient.

Module OpenDrive.

(** *** The engine's strings

    [FString] operations used by the file ([StartsWith], [EndsWith],
    [RemoveFromStart], [RemoveFromEnd], [IsEmpty], [+]).  The comparing
    ones take an [ESearchCase]; the callers in OpenDrive.cpp leave it to
    the default the engine's header declares, which is a field of
    [Engine] below. *)
Definition FString : Type := string.

Inductive ESearchCase : Type := CaseSensitive | IgnoreCase.

Definition ToUpper (c : ascii) : ascii :=
  if (97 <=? char_code c) && (char_code c <=? 122)
  then ascii_of_N (Z.to_N (char_code c - 32))
  else c.

Definition char_eq (sc : ESearchCase) (a b : ascii) : bool :=
  match sc with
  | CaseSensitive => Ascii.eqb a b
  | IgnoreCase => Ascii.eqb (ToUpper a) (ToUpper b)
  end.

(** [Strncmp]/[Strnicmp] of [s] against all of [prefix] giving 0. *)
Fixpoint prefix_matches (sc : ESearchCase) (prefix s : FString) : bool :=
  match prefix, s with
  | EmptyString, _ => true
  | String a p, String b r => char_eq sc a b && prefix_matches sc p r
  | String _ _, EmptyString => false
  end.

Definition Len (s : FString) : nat := String.length s.

Definition IsEmpty (s : FString) : bool :=
  match s with EmptyString => true | String _ _ => false end.

Fixpoint drop (n : nat) (s : FString) : FString :=
  match n, s with
  | O, _ => s
  | S n', String _ r => drop n' r
  | S _, EmptyString => EmptyString
  end.

Fixpoint take (n : nat) (s : FString) : FString :=
  match n, s with
  | O, _ => EmptyString
  | S n', String c r => String c (take n' r)
  | S _, EmptyString => EmptyString
  end.

Definition StartsWith (s prefix : FString) (sc : ESearchCase) : bool :=
  negb (IsEmpty prefix) && prefix_matches sc prefix s.

Definition EndsWith (s suffix : FString) (sc : ESearchCase) : bool :=
  negb (IsEmpty suffix) && (Len suffix <=? Len s)%nat &&
  prefix_matches sc suffix (drop (Len s - Len suffix) s).

Definition RemoveFromStart (s prefix : FString) (sc : ESearchCase) : FString :=
  if StartsWith s prefix sc then drop (Len prefix) s else s.

Definition RemoveFromEnd (s suffix : FString) (sc : ESearchCase) : FString :=
  if EndsWith s suffix sc then take (Len s - Len suffix) s else s.

(** *** The engine

    What the file asks of the engine: the content directory
    ([FPaths::ProjectContentDir]), the file manager ([IFileManager]) and
    [FFileHelper::LoadFileToString].  [FindFiles dir name files dirs] lists
    what the recursive search below [dir] finds for [name], in the order
    the engine reports it; [LoadFile path] is the text of a file that can
    be read. *)
Record Engine : Type := {
  ProjectContentDir : FString;
  DefaultSearchCase : ESearchCase;
  FileExists : FString -> bool;
  FindFiles : FString -> FString -> bool -> bool -> list FString;
  LoadFile : FString -> option FString
}.

Inductive ELogVerbosity : Type := Error | Log.

(** What a run does to the outside: calls to the file manager and lines
    written with [UE_LOG(LogTemp, ...)]. *)
Inductive Event : Type :=
| CallFileExists (path : FString)
| CallFindFilesRecursive (dir name : FString) (files dirs clear : bool)
| CallLoadFileToString (path : FString)
| LogLine (v : ELogVerbosity) (msg : FString).

Definition is_find (e : Event) : bool :=
  match e with CallFindFilesRecursive _ _ _ _ _ => true | _ => false end.

Definition is_log (e : Event) : bool :=
  match e with LogLine _ _ => true | _ => false end.

Section OpenDrive.
(** [UOpenDriveMap] is declared in OpenDriveMap.h, outside this file:
    the state of a map object, the one [NewObject] creates and what
    [Load] makes of it are left open. *)
Context {UOpenDriveMap : Type}.

(** The build configuration: whether the code is compiled for the
    editor. *)
Variable WITH_EDITOR : bool.
Variable eng : Engine.

Variable NewObject : UOpenDriveMap.
Variable Load : UOpenDriveMap -> FString -> UOpenDriveMap.

(** The run-time state: the events so far and the map objects created,
    a pointer being the index of its object ([None] is [nullptr]). *)
Record State : Type := mkState { trace : list Event; objects : list UOpenDriveMap }.

Definition U (A : Type) : Type := State -> A * State.

Definition ret {A} (a : A) : U A := fun s => (a, s).

Definition bind {A B} (m : U A) (k : A -> U B) : U B :=
  fun s => let '(a, s') := m s in k a s'.

Definition emit (e : Event) : U unit :=
  fun s => (tt, mkState (trace s ++ [e])%list (objects s)).

Declare Scope ue_scope.
Delimit Scope ue_scope with ue.
Notation "x <- c ;; k" := (bind c (fun x => k))
  (at level 61, c at next level, right associativity) : ue_scope.
Notation "' pat <- c ;; k" := (bind c (fun x => match x with pat => k end))
  (at level 61, pat pattern, c at next level, right associativity) : ue_scope.
Notation "c ;;; k" := (bind c (fun _ => k))
  (at level 61, right associativity) : ue_scope.
Local Open Scope ue_scope.

(** [IFileManager::FileExists] *)
Definition file_exists (path : FString) : U bool :=
  emit (CallFileExists path) ;;; ret (FileExists eng path).

(** [IFileManager::FindFilesRecursive(FileNames, dir, name, files, dirs,
    clear)]: the array passed by reference is emptied first when [clear]
    is set, and receives what is found. *)
Definition find_files_recursive (FileNames : list FString) (dir name : FString)
           (files dirs clear : bool) : U (list FString) :=
  emit (CallFindFilesRecursive dir name files dirs clear) ;;;
  ret ((if clear then [] else FileNames) ++ FindFiles eng dir name files dirs)%list.

(** [FFileHelper::LoadFileToString(Result, path)]: the flag returned and
    [Result] afterwards, which is left as it was when the file cannot be
    read. *)
Definition load_file_to_string (Result : FString) (path : FString) : U (bool * FString) :=
  emit (CallLoadFileToString path) ;;;
  ret (match LoadFile eng path with
       | Some text => (true, text)
       | None => (false, Result)
       end).

Definition UE_LOG (v : ELogVerbosity) (msg : FString) : U unit :=
  emit (LogLine v msg).

(** [NewObject<UOpenDriveMap>()] *)
Definition new_object : U nat :=
  fun s => (List.length (objects s),
            mkState (trace s) (objects s ++ [NewObject])%list).

Fixpoint update (l : list UOpenDriveMap) (i : nat) (f : UOpenDriveMap -> UOpenDriveMap)
  : list UOpenDriveMap :=
  match l, i with
  | [], _ => []
  | x :: r, O => f x :: r
  | x :: r, S j => x :: update r j f
  end.

(** [Map->Load(content)] *)
Definition map_load (p : nat) (content : FString) : U unit :=
  fun s => (tt, mkState (trace s) (update (objects s) p (fun m => Load m content))).

Definition PIEPrefix : FString := "UEDPIE_0_".

(** The block under [#if WITH_EDITOR] that FindPathToXODRFile, GetXODR and
    GetXODRByPath each contain. *)
Definition RemovePIEPrefix (MapName : FString) : FString :=
  if WITH_EDITOR
  then RemoveFromStart MapName PIEPrefix (DefaultSearchCase eng)
  else MapName.

(** [UOpenDrive::FindPathToXODRFile] (lines 17-55) *)
Definition FindPathToXODRFile (InMapName : FString) : U FString :=
  let MapName := RemovePIEPrefix InMapName in
  let MapName := MapName ++ ".xodr" in
  let DefaultFilePath :=
    ProjectContentDir eng ++ "Carla/Maps/OpenDrive/" ++ MapName in
  exists_ <- file_exists DefaultFilePath ;;
  if exists_ : bool then ret DefaultFilePath
  else
    FilesFound <- find_files_recursive [] (ProjectContentDir eng) MapName
                                       true false false ;;
    ret (match FilesFound with
         | first :: _ => first
         | [] => EmptyString
         end).

(** [UOpenDrive::GetXODR] (lines 57-97); [WorldMapName] is
    [World->GetMapName()] and [MapDir] is [GameMode->GetFullMapPath()]. *)
Definition GetXODR (WorldMapName MapDir : FString) : U FString :=
  let MapName := RemovePIEPrefix WorldMapName in
  let FolderDir := MapDir ++ "/OpenDrive/" in
  let FileName := if EndsWith MapDir MapName (DefaultSearchCase eng)
                  then "*" else MapName in
  Files <- find_files_recursive [] FolderDir (FileName ++ ".xodr") true false false ;;
  let Content := EmptyString in
  match Files with
  | [] =>
      UE_LOG Error ("Failed to find OpenDrive file for map '" ++ MapName ++ "'") ;;;
      ret Content
  | first :: _ =>
      '(ok, Content) <- load_file_to_string Content first ;;
      if ok : bool then
        UE_LOG Log ("Loaded OpenDrive file '" ++ first ++ "'") ;;; ret Content
      else
        UE_LOG Error ("Failed to load OpenDrive file '" ++ first ++ "'") ;;;
        ret Content
  end.

(** [UOpenDrive::LoadXODR] (lines 99-119) *)
Definition LoadXODR (MapName : FString) : U FString :=
  FilePath <- FindPathToXODRFile MapName ;;
  let Content := EmptyString in
  if IsEmpty FilePath then
    UE_LOG Error ("Failed to find OpenDrive file for map '" ++ MapName ++ "'") ;;;
    ret Content
  else
    '(ok, Content) <- load_file_to_string Content FilePath ;;
    if ok : bool then
      UE_LOG Log ("Loaded OpenDrive file '" ++ FilePath ++ "'") ;;; ret Content
    else
      UE_LOG Error ("Failed to load OpenDrive file '" ++ FilePath ++ "'") ;;;
      ret Content.

(** [UOpenDrive::GetXODRByPath] (lines 121-153): there is no branch for
    a file that is found and cannot be read. *)
Definition GetXODRByPath (XODRPath MapName : FString) : U FString :=
  let MapName := RemovePIEPrefix MapName in
  let FileName := if EndsWith XODRPath MapName (DefaultSearchCase eng)
                  then "*" else MapName in
  let FolderDir := RemoveFromEnd XODRPath (MapName ++ ".xodr") (DefaultSearchCase eng) in
  Files <- find_files_recursive [] FolderDir (FileName ++ ".xodr") true false false ;;
  let Content := EmptyString in
  match Files with
  | [] =>
      UE_LOG Error ("Failed to find OpenDrive file for map '" ++ MapName ++ "'") ;;;
      ret Content
  | first :: _ =>
      '(ok, Content) <- load_file_to_string Content first ;;
      if ok : bool then
        UE_LOG Log ("Loaded OpenDrive file '" ++ first ++ "'") ;;; ret Content
      else ret Content
  end.

(** [UOpenDrive::LoadOpenDriveMap] (lines 155-165) *)
Definition LoadOpenDriveMap (MapName : FString) : U (option nat) :=
  let Map : option nat := None in
  XODRContent <- LoadXODR MapName ;;
  if negb (IsEmpty XODRContent) then
    Map <- new_object ;;
    map_load Map XODRContent ;;;
    ret (Some Map)
  else ret Map.

(** [GEngine->GetWorldFromContextObject(WorldContextObject,
    EGetWorldErrorMode::LogAndReturnNull)] (line 169): [World] is the world
    the engine finds for the context object, given by its map name
    ([World->GetMapName()]), or none; in this mode the engine reports a
    failed lookup in its log before it returns the null pointer, and
    [WorldLookupLog] is what it writes then. *)
Definition GetWorldFromContextObject (World : option FString)
           (WorldLookupLog : list Event) : U (option FString) :=
  fun s =>
    match World with
    | Some MapName => (Some MapName, s)
    | None => (None, mkState (trace s ++ WorldLookupLog)%list (objects s))
    end.

(** [UOpenDrive::LoadCurrentOpenDriveMap] (lines 167-173) *)
Definition LoadCurrentOpenDriveMap (World : option FString)
           (WorldLookupLog : list Event) : U (option nat) :=
  World <- GetWorldFromContextObject World WorldLookupLog ;;
  match World with
  | Some MapName => LoadOpenDriveMap MapName
  | None => ret None
  end.

(** To state properties: the state after further events, and the file
    name and conventional path FindPathToXODRFile computes. *)
Definition after (s : State) (events : list Event) : State :=
  mkState (trace s ++ events)%list (objects s).

Definition file_name (InMapName : FString) : FString :=
  RemovePIEPrefix InMapName ++ ".xodr".

Definition default_path (InMapName : FString) : FString :=
  ProjectContentDir eng ++ "Carla/Maps/OpenDrive/" ++ file_name InMapName.
End OpenDrive.

End OpenDrive.

(** ** Instances to run the code on

    A client library over an in-memory simulator and an engine over a small
    content directory, on which the definitions above evaluate. *)
Module Demo.
Import CppClient.

(** A generator that is a counter, and a distribution reducing it into
    the interval asked for. *)
Definition counter_dist (a b g : Z) : Z * Z := (a + g mod (b - a + 1), g + 1).

(** The simulator state counts the calls served. *)
Definition served {A : Type} (a : A) : call nat A := fun n => (Ret a, S n).

Definition failing {A : Type} (e : exn) : call nat A := fun n => (Throw e, S n).

(** A library whose server answers the version request with
    [server_version] and offers [maps]. *)
Definition library (server_version : call nat string) (maps : list string)
  : Library nat Z unit unit unit string (list string) unit Z string Z :=
  {| random_device := served 7;
     mt19937_64 := fun seed => seed;
     uniform_int_distribution := counter_dist;
     make_Client := fun _ _ => served tt;
     SetTimeout := fun _ _ => served tt;
     GetClientVersion := fun _ => served "0.9.15";
     GetServerVersion := fun _ => server_version;
     GetAvailableMaps := fun _ => served maps;
     LoadWorld := fun _ _ => served tt;
     GetBlueprintLibrary := fun _ => served tt;
     Filter := fun _ _ => served ["vehicle.audi.tt"; "vehicle.mini.cooper"];
     ContainsAttribute := fun _ _ => served true;
     GetAttribute := fun _ _ => served ["255,0,0"; "0,0,255"];
     GetRecommendedValues := fun values => served values;
     SetAttribute := fun blueprint _ color => served (blueprint ++ " " ++ color);
     GetMap := fun _ => served tt;
     GetRecommendedSpawnPoints := fun _ => served [10; 20; 30];
     SpawnActor := fun _ blueprint _ => served blueprint;
     GetDisplayId := fun actor => served actor;
     full_throttle := 1;
     ApplyControl := fun _ _ => served tt;
     GetSpectator := fun _ => served "spectator";
     spectator_view := fun t => t + 32;
     SetTransform := fun _ _ => served tt;
     Destroy := fun _ => served true |}.

Definition timeout_message : string :=
  "time-out of 40000ms while waiting for the simulator".

Definition start : Process nat := mkProcess "" O.

Import OpenDrive.

(** A content directory in which Town01 lies at the conventional path and
    at a second place, Town02 only at another place and unreadable, and
    Town04 at another place and readable. *)
Definition content (sc : ESearchCase) : Engine :=
  {| ProjectContentDir := "/Game/Content/";
     DefaultSearchCase := sc;
     FileExists := fun path =>
       String.eqb path "/Game/Content/Carla/Maps/OpenDrive/Town01.xodr";
     FindFiles := fun dir name files dirs =>
       if String.eqb name "Town01.xodr" then
         ["/Game/Content/Carla/Maps/OpenDrive/Town01.xodr";
          "/Game/Content/Backup/Town01.xodr"]
       else if String.eqb name "Town02.xodr" then
         ["/Game/Content/Custom/Town02.xodr"]
       else if String.eqb name "Town04.xodr" then
         ["/Game/Content/Custom/Town04.xodr"; "/Game/Content/Backup/Town04.xodr"]
       else [];
     LoadFile := fun path =>
       if String.eqb path "/Game/Content/Carla/Maps/OpenDrive/Town01.xodr"
       then Some "<OpenDRIVE>Town01</OpenDRIVE>"
       else if String.eqb path "/Game/Content/Custom/Town04.xodr"
       then Some "<OpenDRIVE>Town04</OpenDRIVE>"
       else None |}.

(** Map objects that keep the texts passed to [Load]. *)
Definition empty_state : State := @mkState (list FString) [] [].

Definition record_load (m : list FString) (content : FString) : list FString :=
  (m ++ [content])%list.

End Demo.

(** ** Conditions and further instances

    Predicates in which the properties of the second part are stated, and
    more instances to run the code on. *)
Module Conditions.
Import CppClient.

Section Library.
Variables Sim RNG Client World BlueprintLibrary ActorBlueprint
          ActorAttribute Map Transform Actor Control : Type.

(** A library call that returns normally in every state. *)
Definition returns {A : Type} (c : call Sim A) : Prop :=
  forall s, exists a s', c s = (Ret a, s').

(** A library call that never returns an empty list. *)
Definition never_empty {A : Type} (c : call Sim (list A)) : Prop :=
  forall s l s', c s = (Ret l, s') -> l <> [].

(** A computation that returns normally from every state, with a value
    satisfying [Q]. *)
Definition total {A : Type} (m : M Sim A) (Q : A -> Prop) : Prop :=
  forall p, exists a p', m p = (Ret a, p') /\ Q a.

(** A process state reached from [p] by printing only. *)
Definition extends (p q : Process Sim) : Prop :=
  exists out, stdout q = stdout p ++ out.

(** A library and a simulator that answer every call, offer at least one
    map, vehicle blueprint, colour and spawn point, and whose distribution
    keeps to its interval. *)
Record cooperative
       (lib : Library Sim RNG Client World BlueprintLibrary ActorBlueprint
                      ActorAttribute Map Transform Actor Control) : Prop := {
  coop_dist : forall a b g,
      a <= b -> a <= fst (uniform_int_distribution _ _ _ _ _ _ _ _ _ _ _ lib a b g) <= b;
  coop_random_device : returns (random_device _ _ _ _ _ _ _ _ _ _ _ lib);
  coop_Client : forall host port, returns (make_Client _ _ _ _ _ _ _ _ _ _ _ lib host port);
  coop_SetTimeout : forall c t, returns (SetTimeout _ _ _ _ _ _ _ _ _ _ _ lib c t);
  coop_GetClientVersion : forall c, returns (GetClientVersion _ _ _ _ _ _ _ _ _ _ _ lib c);
  coop_GetServerVersion : forall c, returns (GetServerVersion _ _ _ _ _ _ _ _ _ _ _ lib c);
  coop_GetAvailableMaps : forall c, returns (GetAvailableMaps _ _ _ _ _ _ _ _ _ _ _ lib c);
  coop_maps : forall c, never_empty (GetAvailableMaps _ _ _ _ _ _ _ _ _ _ _ lib c);
  coop_LoadWorld : forall c n, returns (LoadWorld _ _ _ _ _ _ _ _ _ _ _ lib c n);
  coop_GetBlueprintLibrary :
    forall w, returns (GetBlueprintLibrary _ _ _ _ _ _ _ _ _ _ _ lib w);
  coop_Filter : forall l f, returns (Filter _ _ _ _ _ _ _ _ _ _ _ lib l f);
  coop_vehicles : forall l f, never_empty (Filter _ _ _ _ _ _ _ _ _ _ _ lib l f);
  coop_ContainsAttribute :
    forall b n, returns (ContainsAttribute _ _ _ _ _ _ _ _ _ _ _ lib b n);
  coop_GetAttribute : forall b n, returns (GetAttribute _ _ _ _ _ _ _ _ _ _ _ lib b n);
  coop_GetRecommendedValues :
    forall a, returns (GetRecommendedValues _ _ _ _ _ _ _ _ _ _ _ lib a);
  coop_values : forall a, never_empty (GetRecommendedValues _ _ _ _ _ _ _ _ _ _ _ lib a);
  coop_SetAttribute :
    forall b n v, returns (SetAttribute _ _ _ _ _ _ _ _ _ _ _ lib b n v);
  coop_GetMap : forall w, returns (GetMap _ _ _ _ _ _ _ _ _ _ _ lib w);
  coop_GetRecommendedSpawnPoints :
    forall m, returns (GetRecommendedSpawnPoints _ _ _ _ _ _ _ _ _ _ _ lib m);
  coop_points : forall m, never_empty (GetRecommendedSpawnPoints _ _ _ _ _ _ _ _ _ _ _ lib m);
  coop_SpawnActor : forall w b t, returns (SpawnActor _ _ _ _ _ _ _ _ _ _ _ lib w b t);
  coop_GetDisplayId : forall a, returns (GetDisplayId _ _ _ _ _ _ _ _ _ _ _ lib a);
  coop_ApplyControl : forall a c, returns (ApplyControl _ _ _ _ _ _ _ _ _ _ _ lib a c);
  coop_GetSpectator : forall w, returns (GetSpectator _ _ _ _ _ _ _ _ _ _ _ lib w);
  coop_SetTransform : forall a t, returns (SetTransform _ _ _ _ _ _ _ _ _ _ _ lib a t);
  coop_Destroy : forall a, returns (Destroy _ _ _ _ _ _ _ _ _ _ _ lib a)
}.
End Library.

Arguments returns {Sim A} c.
Arguments never_empty {Sim A} c.
Arguments total {Sim A} m Q.
Arguments extends {Sim} p q.
Arguments cooperative {Sim RNG Client World BlueprintLibrary ActorBlueprint
                       ActorAttribute Map Transform Actor Control} lib.

(** The library of [Demo] with two maps, except that every colour
    attribute recommends the same two values. *)
Definition two_colours
  : Library nat Z unit unit unit string (list string) unit Z string Z :=
  {| random_device := Demo.served 7;
     mt19937_64 := fun seed => seed;
     uniform_int_distribution := Demo.counter_dist;
     make_Client := fun _ _ => Demo.served tt;
     SetTimeout := fun _ _ => Demo.served tt;
     GetClientVersion := fun _ => Demo.served "0.9.15";
     GetServerVersion := fun _ => Demo.served "0.9.15";
     GetAvailableMaps := fun _ => Demo.served ["Town01"; "Town02"];
     LoadWorld := fun _ _ => Demo.served tt;
     GetBlueprintLibrary := fun _ => Demo.served tt;
     Filter := fun _ _ => Demo.served ["vehicle.audi.tt"; "vehicle.mini.cooper"];
     ContainsAttribute := fun _ _ => Demo.served true;
     GetAttribute := fun _ _ => Demo.served [];
     GetRecommendedValues := fun _ => Demo.served ["255,0,0"; "0,0,255"];
     SetAttribute := fun blueprint _ color => Demo.served (blueprint ++ " " ++ color);
     GetMap := fun _ => Demo.served tt;
     GetRecommendedSpawnPoints := fun _ => Demo.served [10; 20; 30];
     SpawnActor := fun _ blueprint _ => Demo.served blueprint;
     GetDisplayId := fun actor => Demo.served actor;
     full_throttle := 1;
     ApplyControl := fun _ _ => Demo.served tt;
     GetSpectator := fun _ => Demo.served "spectator";
     spectator_view := fun t => t + 32;
     SetTransform := fun _ _ => Demo.served tt;
     Destroy := fun _ => Demo.served true |}.

Import OpenDrive.

(** A string as the comparison [sc] reads it: as it is, or with its
    letters in upper case. *)
Fixpoint fold_case (sc : ESearchCase) (s : FString) : FString :=
  match s with
  | EmptyString => EmptyString
  | String c r =>
      String (match sc with CaseSensitive => c | IgnoreCase => ToUpper c end)
             (fold_case sc r)
  end.

(** [name] begins with [prefix] as the comparison [sc] reads them: its
    first characters are those of [prefix], up to letter case under
    [IgnoreCase]. *)
Definition begins_with (sc : ESearchCase) (name prefix : FString) : Prop :=
  exists q rest, name = q ++ rest /\ fold_case sc q = fold_case sc prefix.

Definition is_error (e : Event) : bool :=
  match e with LogLine Error _ => true | _ => false end.

(** A content directory whose only file, at the conventional path of
    Town03, can be read and is empty. *)
Definition empty_file : Engine :=
  {| ProjectContentDir := "/Game/Content/";
     DefaultSearchCase := IgnoreCase;
     FileExists := fun path =>
       String.eqb path "/Game/Content/Carla/Maps/OpenDrive/Town03.xodr";
     FindFiles := fun _ _ _ _ => [];
     LoadFile := fun path =>
       if String.eqb path "/Game/Content/Carla/Maps/OpenDrive/Town03.xodr"
       then Some EmptyString else None |}.

(** A map directory "/Game/Maps/Town05" whose folder OpenDrive holds one
    file, named after another map; it is what any search below that folder
    finds, and it can be read. *)
Definition map_folder (sc : ESearchCase) : Engine :=
  {| ProjectContentDir := "/Game/Content/";
     DefaultSearchCase := sc;
     FileExists := fun _ => false;
     FindFiles := fun dir name files dirs =>
       if String.eqb dir "/Game/Maps/Town05/OpenDrive/"
       then ["/Game/Maps/Town05/OpenDrive/Other.xodr"] else [];
     LoadFile := fun path =>
       if String.eqb path "/Game/Maps/Town05/OpenDrive/Other.xodr"
       then Some "<OpenDRIVE>Other</OpenDRIVE>" else None |}.

(** The same folder holding two files, of which the search reports the
    unreadable one first. *)
Definition two_files : Engine :=
  {| ProjectContentDir := "/Game/Content/";
     DefaultSearchCase := IgnoreCase;
     FileExists := fun _ => false;
     FindFiles := fun dir name files dirs =>
       if String.eqb dir "/Game/Maps/Town05/OpenDrive/"
       then ["/Game/Maps/Town05/OpenDrive/Locked.xodr";
             "/Game/Maps/Town05/OpenDrive/Other.xodr"] else [];
     LoadFile := fun path =>
       if String.eqb path "/Game/Maps/Town05/OpenDrive/Other.xodr"
       then Some "<OpenDRIVE>Other</OpenDRIVE>" else None |}.

End Conditions.

(** * Properties *)

(** ** Strings and integers *)

Lemma char_code_digit (d : nat) :
  (d < 10)%nat -> char_code (ascii_of_nat (48 + d)) = 48 + Z.of_nat d.
Proof.
  intros H. unfold char_code.
  do 10 (destruct d as [|d]; [reflexivity|]). lia.
Qed.

Lemma append_assoc (a b c : string) : (a ++ b) ++ c = a ++ (b ++ c).
Proof. induction a as [|x a IH]; simpl; [reflexivity | now rewrite IH]. Qed.

Lemma append_nil_r (a : string) : a ++ "" = a.
Proof. induction a as [|x a IH]; simpl; [reflexivity | now rewrite IH]. Qed.

Lemma to_unsigned_eq (v k : Z) :
  INT_MIN <= v <= INT_MAX -> 0 <= k < 2 ^ 31 ->
  (to_unsigned v =? k) = (v =? k).
Proof.
  unfold INT_MIN, INT_MAX, to_unsigned. intros Hv Hk.
  destruct (Z.eqb_spec v k) as [->|Hne].
  - rewrite Z.mod_small by lia. apply Z.eqb_refl.
  - apply Z.eqb_neq. intros E.
    destruct (Z_lt_le_dec v 0) as [Hneg|Hpos].
    + assert (Hm : v mod 2 ^ 32 = v + 2 ^ 32).
      { symmetry. apply Z.mod_unique with (q := -1); lia. }
      lia.
    + rewrite Z.mod_small in E by lia. lia.
Qed.

Lemma isdigit_digit (d : nat) : (d < 10)%nat -> isdigit (ascii_of_nat (48 + d)) = true.
Proof.
  intros H. unfold isdigit. rewrite (char_code_digit d H).
  apply andb_true_intro; split; apply Z.leb_le; lia.
Qed.

Lemma digits_value_numeral (ds : list nat) :
  forall acc rest,
    Forall (fun d => (d < 10)%nat) ds ->
    starts_with_digit rest = false ->
    digits_value acc (numeral ds ++ rest) =
    fold_left (fun a d => 10 * a + Z.of_nat d) ds acc.
Proof.
  induction ds as [|d ds IH]; intros acc rest Hds Hrest.
  - destruct rest as [|c r]; simpl in *; [reflexivity | now rewrite Hrest].
  - inversion Hds as [|? ? Hd Hds']; subst.
    cbn [numeral append digits_value fold_left].
    rewrite (isdigit_digit d Hd), (char_code_digit d Hd).
    rewrite (IH _ rest Hds' Hrest). f_equal. lia.
Qed.

(** A string that begins with a digit is converted from its first
    character on. *)
Lemma strtol10_digit (c : ascii) (r : string) :
  isdigit c = true ->
  strtol10 (String c r) = Some (digits_value 0 (String c r)).
Proof.
  intros Hc.
  assert (Hs : isspace c = false /\ c <> "-"%char /\ c <> "+"%char).
  { repeat split; try (intros ->; discriminate Hc).
    unfold isdigit, isspace in *.
    apply andb_prop in Hc as [H1 H2]. apply Z.leb_le in H1.
    apply orb_false_intro; [apply Z.eqb_neq; lia |].
    apply andb_false_intro2. apply Z.leb_gt. lia. }
  destruct Hs as (Hsp & Hm & Hp).
  unfold strtol10. cbn [skip_spaces]. rewrite Hsp.
  destruct c as [[] [] [] [] [] [] [] []];
    try discriminate Hc; try contradiction; cbn [starts_with_digit];
    rewrite ?Hc; reflexivity.
Qed.

Lemma strtol10_minus (c : ascii) (r : string) :
  isdigit c = true ->
  strtol10 (String "-" (String c r)) = Some (- digits_value 0 (String c r)).
Proof.
  intros Hc. unfold strtol10. cbn [skip_spaces].
  change (isspace "-") with false. cbn iota. cbn [starts_with_digit].
  now rewrite Hc.
Qed.

(** White space in front is skipped. *)
Lemma strtol10_space (c : ascii) (s : string) :
  isspace c = true -> strtol10 (String c s) = strtol10 s.
Proof. intros Hc. unfold strtol10. cbn [skip_spaces]. now rewrite Hc. Qed.

(** What [strtol] makes of an optionally negated decimal numeral followed
    by anything that is not a digit. *)
Lemma strtol10_numeral (neg : bool) (ds : list nat) (rest : string) :
  ds <> [] ->
  Forall (fun d => (d < 10)%nat) ds ->
  starts_with_digit rest = false ->
  strtol10 ((if neg then "-" else "") ++ numeral ds ++ rest) =
  Some (if neg then - numeral_value ds else numeral_value ds).
Proof.
  intros Hne Hds Hrest.
  destruct ds as [|d ds]; [contradiction|].
  assert (Hd : isdigit (ascii_of_nat (48 + d)) = true).
  { inversion Hds; subst. now apply isdigit_digit. }
  pose proof (digits_value_numeral (d :: ds) 0 rest Hds Hrest) as Hv.
  cbn [numeral append] in Hv |- *.
  destruct neg; cbn [append].
  - rewrite (strtol10_minus _ _ Hd). unfold numeral_value. now rewrite <- Hv.
  - rewrite (strtol10_digit _ _ Hd). unfold numeral_value. now rewrite <- Hv.
Qed.

Lemma numeral_value_nonneg (ds : list nat) : 0 <= numeral_value ds.
Proof.
  unfold numeral_value.
  assert (H : forall a, 0 <= a ->
                        0 <= fold_left (fun acc d => 10 * acc + Z.of_nat d) ds a).
  { induction ds as [|d ds IH]; intros a Ha; cbn [fold_left]; [exact Ha|].
    apply IH. lia. }
  apply H. lia.
Qed.

Lemma stoi_in_int (s : string) (v : Z) : stoi s = Ret v -> INT_MIN <= v <= INT_MAX.
Proof.
  unfold stoi. destruct (strtol10 s) as [w|]; [|discriminate].
  destruct (in_int w) eqn:E; [|discriminate].
  intros [= <-]. unfold in_int in E.
  apply andb_prop in E as [E1 E2]. apply Z.leb_le in E1, E2. lia.
Qed.

Lemma stoi_throws (s : string) (e : exn) :
  stoi s = Throw e ->
  e = StdException invalid_argument "stoi" \/ e = StdException out_of_range "stoi".
Proof.
  unfold stoi. destruct (strtol10 s) as [w|].
  - destruct (in_int w); [discriminate|]. intros [= <-]. now right.
  - intros [= <-]. now left.
Qed.

Lemma stoi_defined (s : string) : stoi s <> Undefined.
Proof.
  unfold stoi. destruct (strtol10 s) as [w|]; [destruct (in_int w)|]; discriminate.
Qed.

(** ** The example client *)

Module CppClientFacts.
Import CppClient.
Local Open Scope outcome_scope.

(** On an [int], comparing with [1u] and [3u] after the conversion to
    [unsigned] is comparing with 1 and 3. *)
Lemma count_check_int (argc : Z) :
  INT_MIN <= argc <= INT_MAX ->
  (to_unsigned argc =? 1) || (to_unsigned argc =? 3) = (argc =? 1) || (argc =? 3).
Proof.
  intros H. now rewrite !to_unsigned_eq by (assumption || lia).
Qed.

Lemma ParseArguments_bad_count (argc : Z) (argv : list string) :
  INT_MIN <= argc <= INT_MAX -> argc <> 1 -> argc <> 3 ->
  ParseArguments argc argv =
  Throw (StdException runtime_error "(argc == 1u) || (argc == 3u)").
Proof.
  intros H H1 H3. unfold ParseArguments. rewrite (count_check_int argc H).
  apply Z.eqb_neq in H1, H3. now rewrite H1, H3.
Qed.

Lemma ParseArguments_1 (argv : list string) :
  ParseArguments 1 argv = Ret ("localhost", 2000).
Proof. reflexivity. Qed.

Lemma ParseArguments_3 (argv : list string) :
  ParseArguments 3 argv =
  (host <- argv_at argv 1 ;; arg2 <- argv_at argv 2 ;;
   port <- stoi arg2 ;; Ret (host, to_uint16 port)).
Proof. reflexivity. Qed.

(** X6: with the [argc] strings the run time passes, no access to [argv]
    is undefined. *)
Lemma ParseArguments_defined (argc : Z) (argv : list string) :
  INT_MIN <= argc <= INT_MAX -> Z.of_nat (List.length argv) = argc ->
  ParseArguments argc argv <> Undefined.
Proof.
  intros H Hlen.
  destruct (Z.eq_dec argc 1) as [-> | N1]; [rewrite ParseArguments_1; discriminate|].
  destruct (Z.eq_dec argc 3) as [-> | N3].
  - destruct argv as [|a0 [|a1 [|a2 [|a3 r]]]]; cbn [List.length] in Hlen; try lia.
    rewrite ParseArguments_3. cbn [argv_at nth_error obind].
    pose proof (stoi_defined a2) as Hd.
    destruct (stoi a2); [discriminate | discriminate | contradiction].
  - rewrite (ParseArguments_bad_count argc argv H N1 N3). discriminate.
Qed.

(** C4: for an [int] argc, ParseArguments throws the runtime error of its
    count check exactly when argc is neither 1 nor 3, and for 1 and 3 it
    throws no runtime error at all. *)
Theorem ParseArguments_count_check (argc : Z) (argv : list string) :
  INT_MIN <= argc <= INT_MAX ->
  (argc <> 1 /\ argc <> 3 <->
   ParseArguments argc argv =
   Throw (StdException runtime_error "(argc == 1u) || (argc == 3u)")) /\
  (argc = 1 \/ argc = 3 ->
   forall what, ParseArguments argc argv <> Throw (StdException runtime_error what)).
Proof.
  intros H.
  assert (Hok : argc = 1 \/ argc = 3 ->
                forall what, ParseArguments argc argv <>
                             Throw (StdException runtime_error what)).
  { intros [-> | ->] what.
    - rewrite ParseArguments_1. discriminate.
    - rewrite ParseArguments_3. unfold argv_at.
      destruct (nth_error argv 1); [|discriminate].
      destruct (nth_error argv 2) as [arg2|]; [|discriminate].
      cbn [obind]. destruct (stoi arg2) as [v| e |] eqn:E; cbn [obind];
        try discriminate.
      destruct (stoi_throws _ _ E) as [-> | ->]; discriminate. }
  split; [split|exact Hok].
  - intros [H1 H3]. now apply ParseArguments_bad_count.
  - intros E.
    destruct (Z.eq_dec argc 1) as [E1|N1]; [exfalso; exact (Hok (or_introl E1) _ E)|].
    destruct (Z.eq_dec argc 3) as [E3|N3]; [exfalso; exact (Hok (or_intror E3) _ E)|].
    now split.
Qed.

Lemma ParseArguments_count_check_witness :
  (2 <> 1 /\ 2 <> 3 <->
   ParseArguments 2 ["client"; "localhost"] =
   Throw (StdException runtime_error "(argc == 1u) || (argc == 3u)")) /\
  (2 = 1 \/ 2 = 3 ->
   forall what, ParseArguments 2 ["client"; "localhost"] <>
                Throw (StdException runtime_error what)).
Proof.
  apply (ParseArguments_count_check 2 ["client"; "localhost"]).
  unfold INT_MIN, INT_MAX. lia.
Defined.

(** C5: without positional arguments the result is the default pair
    ("localhost", 2000); with two, it is argv[1] and the number std::stoi
    reads from argv[2], as a uint16_t; for a decimal numeral of a value up
    to 65535 the port is that value. *)
Theorem ParseArguments_values (argv : list string) :
  ParseArguments 1 argv = Ret ("localhost", 2000) /\
  (forall host arg2 v,
      nth_error argv 1 = Some host -> nth_error argv 2 = Some arg2 ->
      stoi arg2 = Ret v ->
      ParseArguments 3 argv = Ret (host, to_uint16 v)) /\
  (forall host ds,
      nth_error argv 1 = Some host -> nth_error argv 2 = Some (numeral ds) ->
      ds <> [] -> Forall (fun d => (d < 10)%nat) ds ->
      numeral_value ds <= 65535 ->
      ParseArguments 3 argv = Ret (host, numeral_value ds)).
Proof.
  split; [reflexivity|]. split.
  - intros host arg2 v H1 H2 Hv. rewrite ParseArguments_3. unfold argv_at.
    rewrite H1, H2. cbn [obind]. now rewrite Hv.
  - intros host ds H1 H2 Hne Hds Hle. rewrite ParseArguments_3. unfold argv_at.
    rewrite H1, H2. cbn [obind]. unfold stoi.
    pose proof (strtol10_numeral false ds "" Hne Hds eq_refl) as E.
    cbn [append] in E. rewrite append_nil_r in E. rewrite E.
    pose proof (numeral_value_nonneg ds) as Hpos.
    replace (in_int (numeral_value ds)) with true.
    + cbn [obind]. unfold to_uint16. rewrite Z.mod_small by lia. reflexivity.
    + symmetry. unfold in_int, INT_MIN, INT_MAX.
      apply andb_true_intro; split; apply Z.leb_le; lia.
Qed.

Lemma ParseArguments_values_witness :
  ParseArguments 1 ["client"] = Ret ("localhost", 2000) /\
  ParseArguments 3 ["client"; "10.0.0.1"; "2000"] = Ret ("10.0.0.1", 2000) /\
  ParseArguments 3 ["client"; "10.0.0.1"; "2001"] = Ret ("10.0.0.1", 2001).
Proof.
  split; [|split].
  - exact (proj1 (ParseArguments_values ["client"])).
  - apply (proj1 (proj2 (ParseArguments_values ["client"; "10.0.0.1"; "2000"]))
             "10.0.0.1" "2000" 2000); reflexivity.
  - apply (proj2 (proj2 (ParseArguments_values ["client"; "10.0.0.1"; "2001"]))
             "10.0.0.1" [2; 0; 0; 1]%nat); try reflexivity.
    + discriminate.
    + repeat constructor.
    + unfold numeral_value. cbn. lia.
Defined.

(** C10: with two positional arguments the port is the int that std::stoi
    reads from argv[2] in base 10, reduced modulo 2^16 by the conversion to
    uint16_t.  For an optionally negated decimal numeral (followed by
    anything that is no digit) of value v: the port is v mod 2^16 when v
    is an int, and std::out_of_range is thrown when it is not; an argument
    from which no number can be read makes std::invalid_argument be thrown;
    in either case of an exception no pair is returned. *)
Theorem ParseArguments_port (argv0 host : string) :
  (forall (neg : bool) (ds : list nat) (rest : string),
      ds <> [] -> Forall (fun d => (d < 10)%nat) ds ->
      starts_with_digit rest = false ->
      let v := if neg then - numeral_value ds else numeral_value ds in
      ParseArguments 3 [argv0; host; (if neg then "-" else "") ++ numeral ds ++ rest] =
      if in_int v then Ret (host, v mod 2 ^ 16)
      else Throw (StdException out_of_range "stoi")) /\
  (forall arg2, strtol10 arg2 = None ->
      ParseArguments 3 [argv0; host; arg2] =
      Throw (StdException invalid_argument "stoi")) /\
  (forall arg2 v, stoi arg2 = Ret v ->
      INT_MIN <= v <= INT_MAX /\
      ParseArguments 3 [argv0; host; arg2] = Ret (host, v mod 2 ^ 16) /\
      0 <= v mod 2 ^ 16 < 2 ^ 16) /\
  (forall arg2 e, stoi arg2 = Throw e ->
      ParseArguments 3 [argv0; host; arg2] = Throw e).
Proof.
  assert (H3 : forall arg2,
             ParseArguments 3 [argv0; host; arg2] =
             (port <- stoi arg2 ;; Ret (host, to_uint16 port))) by reflexivity.
  split; [|split; [|split]].
  - intros neg ds rest Hne Hds Hrest v. rewrite H3. unfold stoi.
    rewrite (strtol10_numeral neg ds rest Hne Hds Hrest). fold v.
    destruct (in_int v); reflexivity.
  - intros arg2 E. rewrite H3. unfold stoi. now rewrite E.
  - intros arg2 v E. split; [apply (stoi_in_int _ _ E)|]. split.
    + rewrite H3, E. reflexivity.
    + apply Z.mod_pos_bound. lia.
  - intros arg2 e E. rewrite H3, E. reflexivity.
Qed.

Lemma ParseArguments_port_witness :
  ParseArguments 3 ["client"; "10.0.0.1"; "65537"] = Ret ("10.0.0.1", 1) /\
  ParseArguments 3 ["client"; "10.0.0.1"; "-1"] = Ret ("10.0.0.1", 65535) /\
  ParseArguments 3 ["client"; "10.0.0.1"; "2147483648"] =
    Throw (StdException out_of_range "stoi") /\
  ParseArguments 3 ["client"; "10.0.0.1"; "port"] =
    Throw (StdException invalid_argument "stoi").
Proof.
  pose proof (ParseArguments_port "client" "10.0.0.1") as (Hnum & Hnone & _ & _).
  split; [|split; [|split]].
  - apply (Hnum false [6; 5; 5; 3; 7]%nat ""); [discriminate | repeat constructor | reflexivity].
  - apply (Hnum true [1]%nat ""); [discriminate | repeat constructor | reflexivity].
  - apply (Hnum false [2; 1; 4; 7; 4; 8; 3; 6; 4; 8]%nat "");
      [discriminate | repeat constructor | reflexivity].
  - apply (Hnone "port"). reflexivity.
Defined.

(** *** RandomChoice *)
Section RandomChoiceFacts.
Context {RNG T : Type}.
Variable dist : Z -> Z -> RNG -> Z * RNG.

(** What [std::uniform_int_distribution] guarantees: built on [a <= b], it
    draws a value of [a, b] whatever the generator yields. *)
Hypothesis dist_range :
  forall a b g, a <= b -> a <= fst (dist a b g) <= b.

Lemma size_pos (range : list T) : range <> [] -> 1 <= size range.
Proof.
  unfold size. destruct range; [contradiction | cbn [List.length]; lia].
Qed.

(** [range.size() - 1u] does not wrap on a range that is not empty. *)
Lemma size_minus_one (range : list T) :
  range <> [] -> 0 <= size_t_sub (size range) 1 <= size range - 1.
Proof.
  intros H. apply size_pos in H. unfold size_t_sub. split.
  - apply Z.mod_pos_bound. lia.
  - apply Z.mod_le; lia.
Qed.

Lemma at_index_in (range : list T) (i : Z) :
  0 <= i < size range ->
  exists x, nth_error range (Z.to_nat i) = Some x /\ In x range /\
            at_index range i = Ret x.
Proof.
  intros Hi. unfold at_index.
  replace ((0 <=? i) && (i <? size range)) with true
    by (symmetry; apply andb_true_intro; split;
        [apply Z.leb_le | apply Z.ltb_lt]; lia).
  destruct (nth_error range (Z.to_nat i)) as [x|] eqn:E.
  - exists x. repeat split. now apply nth_error_In in E.
  - apply nth_error_None in E. unfold size in Hi. lia.
Qed.

(** C8: RandomChoice throws its runtime error exactly when the range is
    empty; on a range that is not empty the bounds 0 and size - 1 of the
    distribution are in order, the index drawn is below the size, and the
    result is the element of the range at that index, whatever the
    generator. *)
Theorem RandomChoice_in_bounds (range : list T) (g : RNG) :
  (range = [] ->
   RandomChoice dist range g =
   (Throw (StdException runtime_error "range.size() > 0u"), g)) /\
  ((exists e, fst (RandomChoice dist range g) = Throw e) <-> range = []) /\
  (range <> [] ->
   exists i x,
     i = fst (dist 0 (size_t_sub (size range) 1) g) /\
     0 <= i <= size_t_sub (size range) 1 /\
     i <= size range - 1 /\
     nth_error range (Z.to_nat i) = Some x /\
     In x range /\
     RandomChoice dist range g =
     (Ret x, snd (dist 0 (size_t_sub (size range) 1) g))).
Proof.
  assert (Hne : range <> [] ->
    exists i x,
     i = fst (dist 0 (size_t_sub (size range) 1) g) /\
     0 <= i <= size_t_sub (size range) 1 /\
     i <= size range - 1 /\
     nth_error range (Z.to_nat i) = Some x /\
     In x range /\
     RandomChoice dist range g =
     (Ret x, snd (dist 0 (size_t_sub (size range) 1) g))).
  { intros H. pose proof (size_minus_one range H) as Hb.
    pose proof (dist_range 0 (size_t_sub (size range) 1) g (proj1 Hb)) as Hi.
    destruct (at_index_in range (fst (dist 0 (size_t_sub (size range) 1) g)))
      as (x & Hx & Hin & Hat); [lia|].
    exists (fst (dist 0 (size_t_sub (size range) 1) g)), x.
    repeat split; try lia; try assumption.
    unfold RandomChoice, EXPECT_TRUE.
    replace (0 <? size range) with true
      by (symmetry; apply Z.ltb_lt; apply size_pos in H; lia).
    destruct (dist 0 (size_t_sub (size range) 1) g) as [i g'].
    cbn [fst snd] in *. now rewrite Hat. }
  split; [|split]; [| |exact Hne].
  - intros ->. reflexivity.
  - split.
    + intros [e He]. destruct range as [|x r]; [reflexivity|].
      destruct Hne as (i & y & _ & _ & _ & _ & _ & E); [discriminate|].
      rewrite E in He. discriminate.
    + intros ->. eexists. reflexivity.
Qed.

End RandomChoiceFacts.

Lemma counter_dist_range (a b g : Z) :
  a <= b -> a <= fst (Demo.counter_dist a b g) <= b.
Proof.
  intros H. unfold Demo.counter_dist. cbn [fst].
  pose proof (Z.mod_pos_bound g (b - a + 1) ltac:(lia)). lia.
Qed.

Lemma RandomChoice_in_bounds_witness :
  (exists i x,
     i = fst (Demo.counter_dist 0 (size_t_sub (size ["Town01"; "Town02"; "Town03"]) 1) 7) /\
     0 <= i <= size_t_sub (size ["Town01"; "Town02"; "Town03"]) 1 /\
     i <= size ["Town01"; "Town02"; "Town03"] - 1 /\
     nth_error ["Town01"; "Town02"; "Town03"] (Z.to_nat i) = Some x /\
     In x ["Town01"; "Town02"; "Town03"] /\
     RandomChoice Demo.counter_dist ["Town01"; "Town02"; "Town03"] 7 =
     (Ret x, snd (Demo.counter_dist 0
                    (size_t_sub (size ["Town01"; "Town02"; "Town03"]) 1) 7))) /\
  RandomChoice Demo.counter_dist (@nil string) 7 =
  (Throw (StdException runtime_error "range.size() > 0u"), 7).
Proof.
  split.
  - apply (RandomChoice_in_bounds Demo.counter_dist counter_dist_range
             ["Town01"; "Town02"; "Town03"] 7).
    discriminate.
  - apply (RandomChoice_in_bounds Demo.counter_dist counter_dist_range (@nil string) 7).
    reflexivity.
Defined.

(** *** main *)
Section MainFacts.
Variables Sim RNG Client World BlueprintLibrary ActorBlueprint
          ActorAttribute Map Transform Actor Control : Type.
Variable lib : Library Sim RNG Client World BlueprintLibrary ActorBlueprint
                       ActorAttribute Map Transform Actor Control.

(** What a handler prints is appended to what the [try] block had
    printed. *)
Lemma print_three (a b c : string) (code : Z) (p : Process Sim) :
  bind (print a) (fun _ => bind (print b) (fun _ =>
    bind (print c) (fun _ => ret code))) p =
  (Ret code, mkProcess (stdout p ++ a ++ b ++ c) (sim p)).
Proof.
  unfold bind, print, ret. cbn [stdout sim].
  now rewrite !append_assoc.
Qed.

(** Nothing that was printed is taken back: every step only appends to the
    standard output. *)
Lemma appends_ret {A : Type} (a : A) : @appends Sim A (ret a).
Proof. intros p o p' [= _ <-]. exists "". now rewrite append_nil_r. Qed.

Lemma appends_lift {A : Type} (o : outcome A) : @appends Sim A (lift o).
Proof. intros p o' p' [= _ <-]. exists "". now rewrite append_nil_r. Qed.

Lemma appends_invoke {A : Type} (c : call Sim A) : appends (invoke c).
Proof.
  intros p o p'. unfold invoke. destruct (c (sim p)) as [o' s'].
  intros [= _ <-]. exists "". cbn [stdout]. now rewrite append_nil_r.
Qed.

Lemma appends_print (s : string) : @appends Sim unit (print s).
Proof. intros p o p' [= _ <-]. now exists s. Qed.

Lemma appends_choose {T : Type} (range : list T) (rng : RNG) :
  appends (choose lib range rng).
Proof.
  intros p o p'. unfold choose.
  destruct (RandomChoice (uniform_int_distribution _ _ _ _ _ _ _ _ _ _ _ lib) range rng)
    as [[x | e |] rng'];
    intros [= _ <-]; exists ""; now rewrite append_nil_r.
Qed.

Lemma appends_bind {A B : Type} (m : M Sim A) (k : A -> M Sim B) :
  appends m -> (forall a, appends (k a)) -> appends (bind m k).
Proof.
  intros Hm Hk p o p'. unfold bind.
  destruct (m p) as [[a | e |] q] eqn:E; destruct (Hm _ _ _ E) as [out1 H1].
  - intros Ek. destruct (Hk a _ _ _ Ek) as [out2 H2].
    exists (out1 ++ out2). now rewrite H2, H1, append_assoc.
  - intros [= _ <-]. now exists out1.
  - intros [= _ <-]. now exists out1.
Qed.

Lemma appends_main_try (argc : Z) (argv : list string) :
  appends (main_try lib argc argv).
Proof.
  unfold main_try.
  repeat first
    [ apply appends_ret | apply appends_lift | apply appends_invoke
    | apply appends_print | apply appends_choose
    | apply appends_bind; [| intros ?]
    | match goal with
      | |- appends (match ?x with (_, _) => _ end) => destruct x
      | |- appends (if ?b then _ else _) => destruct b
      end ].
Qed.

(** X1: an invalid argument count ends the program with code 2, whatever
    the library: the text of the failed check is printed and no call into
    the library is made. *)
Lemma main_bad_count (argc : Z) (argv : list string) (p : Process Sim) :
  INT_MIN <= argc <= INT_MAX -> argc <> 1 -> argc <> 3 ->
  main lib argc argv p =
  (Ret 2, mkProcess (stdout p ++ nl ++ "Exception: (argc == 1u) || (argc == 3u)" ++ nl)
                    (sim p)).
Proof.
  intros H H1 H3. unfold main, main_try.
  unfold bind at 1, lift at 1.
  rewrite (ParseArguments_bad_count argc argv H H1 H3).
  cbn [is_timeout]. rewrite print_three. now rewrite !append_assoc.
Qed.

(** C1: main returns 0 when its try block completes; when the block throws
    a carla::client::TimeoutException it returns 1, and on any other
    exception derived from std::exception it returns 2; in both cases
    what() is written to the standard output (after a line break, and after
    "Exception: " in the second case) behind what the block had printed,
    followed by a line break. *)
Theorem main_exit_code (argc : Z) (argv : list string) (p : Process Sim) :
  (forall p', main_try lib argc argv p = (Ret tt, p') ->
              main lib argc argv p = (Ret 0, p')) /\
  (forall what p',
      main_try lib argc argv p = (Throw (StdException TimeoutException what), p') ->
      main lib argc argv p =
      (Ret 1, mkProcess (stdout p' ++ nl ++ what ++ nl) (sim p'))) /\
  (forall c what p',
      c <> TimeoutException ->
      main_try lib argc argv p = (Throw (StdException c what), p') ->
      main lib argc argv p =
      (Ret 2, mkProcess (stdout p' ++ nl ++ "Exception: " ++ what ++ nl) (sim p'))) /\
  (forall code p', main lib argc argv p = (Ret code, p') ->
                   code = 0 \/ code = 1 \/ code = 2).
Proof.
  split; [|split; [|split]].
  - intros p' E. unfold main. now rewrite E.
  - intros what p' E. unfold main. rewrite E. cbn [is_timeout].
    apply print_three.
  - intros c what p' Hc E. unfold main. rewrite E.
    destruct c; try contradiction; cbn [is_timeout];
      rewrite print_three; now rewrite !append_assoc.
  - intros code p'. unfold main.
    destruct (main_try lib argc argv p) as [[[] | [c what|] |] q].
    + intros [= <- _]. now left.
    + destruct (is_timeout c); rewrite print_three; intros [= <- _]; auto.
    + discriminate.
    + discriminate.
Qed.

(** What main leaves on the standard output begins with what was there
    before. *)
Lemma appends_main (argc : Z) (argv : list string) : appends (main lib argc argv).
Proof.
  intros p o p'. unfold main.
  destruct (main_try lib argc argv p) as [[[] | [c what|] |] q] eqn:E;
    destruct (appends_main_try argc argv _ _ _ E) as [out H].
  - intros [= _ <-]. now exists out.
  - destruct (is_timeout c); rewrite print_three; intros [= _ <-];
      cbn [stdout]; rewrite H, append_assoc; eauto.
  - intros [= _ <-]. now exists out.
  - intros [= _ <-]. now exists out.
Qed.

End MainFacts.

(** The three ways a run can end, on the in-memory simulator. *)
Lemma main_exit_code_witness :
  main (Demo.library (Demo.served "0.9.15") ["Town01"; "Town02"]) 1 ["client"] Demo.start =
  (Ret 0,
   mkProcess ("Client API version : 0.9.15" ++ nl ++
              "Server API version : 0.9.15" ++ nl ++
              "Loading world: Town02" ++ nl ++
              "Spawned vehicle.audi.tt 0,0,255" ++ nl ++
              "Actors destroyed." ++ nl) 21%nat) /\
  main (Demo.library (Demo.failing (StdException TimeoutException Demo.timeout_message))
                     ["Town01"; "Town02"]) 1 ["client"] Demo.start =
  (Ret 1,
   mkProcess ("Client API version : 0.9.15" ++ nl ++
              "Server API version : " ++ nl ++ Demo.timeout_message ++ nl) 5%nat) /\
  main (Demo.library (Demo.served "0.9.15") []) 1 ["client"] Demo.start =
  (Ret 2,
   mkProcess ("Client API version : 0.9.15" ++ nl ++
              "Server API version : 0.9.15" ++ nl ++
              nl ++ "Exception: range.size() > 0u" ++ nl) 6%nat).
Proof.
  split; [|split].
  - apply (proj1 (main_exit_code _ _ _ _ _ _ _ _ _ _ _
                    (Demo.library (Demo.served "0.9.15") ["Town01"; "Town02"])
                    1 ["client"] Demo.start)).
    vm_compute. reflexivity.
  - apply (proj1 (proj2 (main_exit_code _ _ _ _ _ _ _ _ _ _ _
             (Demo.library (Demo.failing (StdException TimeoutException Demo.timeout_message))
                           ["Town01"; "Town02"])
             1 ["client"] Demo.start)) Demo.timeout_message
             (mkProcess ("Client API version : 0.9.15" ++ nl ++ "Server API version : ") 5%nat)).
    vm_compute. reflexivity.
  - apply (proj1 (proj2 (proj2 (main_exit_code _ _ _ _ _ _ _ _ _ _ _
             (Demo.library (Demo.served "0.9.15") []) 1 ["client"] Demo.start)))
             runtime_error "range.size() > 0u"
             (mkProcess ("Client API version : 0.9.15" ++ nl ++
                         "Server API version : 0.9.15" ++ nl) 6%nat)).
    + discriminate.
    + vm_compute. reflexivity.
Defined.

End CppClientFacts.

(** ** The OpenDrive file lookup *)

Module OpenDriveFacts.
Import OpenDrive.
Local Open Scope list_scope.

Lemma char_eq_refl (sc : ESearchCase) (c : ascii) : char_eq sc c c = true.
Proof. destruct sc; apply Ascii.eqb_refl. Qed.

Lemma prefix_matches_app (sc : ESearchCase) (p r : FString) :
  prefix_matches sc p (p ++ r)%string = true.
Proof.
  induction p as [|c p IH]; cbn [prefix_matches append]; [reflexivity|].
  now rewrite char_eq_refl, IH.
Qed.

Lemma drop_app (p r : FString) : drop (Len p) (p ++ r)%string = r.
Proof. induction p as [|c p IH]; [reflexivity | exact IH]. Qed.

Lemma StartsWith_app (sc : ESearchCase) (p r : FString) :
  p <> EmptyString -> StartsWith (p ++ r)%string p sc = true.
Proof.
  intros Hp. unfold StartsWith. rewrite prefix_matches_app.
  destruct p; [contradiction | reflexivity].
Qed.

Lemma RemoveFromStart_app (sc : ESearchCase) (p r : FString) :
  p <> EmptyString -> RemoveFromStart (p ++ r)%string p sc = r.
Proof.
  intros Hp. unfold RemoveFromStart.
  rewrite (StartsWith_app sc p r Hp). apply drop_app.
Qed.

(** Under the case-sensitive comparison a prefix is found exactly when the
    string begins with it. *)
Lemma prefix_matches_sensitive (p s : FString) :
  prefix_matches CaseSensitive p s = true <-> exists r, s = (p ++ r)%string.
Proof.
  revert s. induction p as [|c p IH]; intros s; cbn [prefix_matches append].
  - split; [intros _; now exists s | reflexivity].
  - destruct s as [|d s].
    + split; [discriminate | intros [r Hr]; discriminate].
    + cbn [char_eq]. split.
      * intros H. apply andb_prop in H as [Hc Hp].
        apply Ascii.eqb_eq in Hc. apply IH in Hp as [r ->]. subst. now exists r.
      * intros [r [= -> ->]]. rewrite Ascii.eqb_refl. apply IH. now exists r.
Qed.

Lemma fold_case_Len (sc : ESearchCase) (s : FString) :
  Len (Conditions.fold_case sc s) = Len s.
Proof.
  unfold Len. induction s as [|c s IH]; cbn [Conditions.fold_case String.length];
    [reflexivity | now rewrite IH].
Qed.

Lemma char_eq_fold (sc : ESearchCase) (a b : ascii) :
  char_eq sc a b = true <->
  Conditions.fold_case sc (String b EmptyString) =
  Conditions.fold_case sc (String a EmptyString).
Proof.
  destruct sc; cbn [char_eq Conditions.fold_case]; rewrite Ascii.eqb_eq; split.
  - now intros ->.
  - now intros [= ->].
  - now intros ->.
  - now intros [= ->].
Qed.

(** The engine's test on the first characters, as a relation between the
    strings. *)
Lemma prefix_matches_begins (sc : ESearchCase) (p s : FString) :
  prefix_matches sc p s = true <-> Conditions.begins_with sc s p.
Proof.
  unfold Conditions.begins_with. revert s.
  induction p as [|a p IH]; intros s; cbn [prefix_matches].
  - split; [|reflexivity]. intros _. exists EmptyString, s. now split.
  - destruct s as [|b s].
    + split; [discriminate|]. intros (q & rest & Hs & Hq).
      destruct q as [|c q]; [discriminate Hq | discriminate Hs].
    + split.
      * intros H. apply andb_prop in H as [Hc Hp].
        apply IH in Hp as (q & rest & -> & Hq).
        exists (String b q), rest. split; [reflexivity|].
        apply char_eq_fold in Hc. cbn [Conditions.fold_case] in Hc |- *.
        injection Hc as Hc. now rewrite Hc, Hq.
      * intros (q & rest & Hs & Hq).
        destruct q as [|c q]; [discriminate Hq|].
        cbn [append] in Hs. injection Hs as <- ->.
        cbn [Conditions.fold_case] in Hq. injection Hq as Hc Hq.
        apply andb_true_intro. split.
        -- apply char_eq_fold. cbn [Conditions.fold_case]. now rewrite Hc.
        -- apply IH. now exists q, rest.
Qed.

Section Lookup.
Context {UOpenDriveMap : Type}.
Variable WITH_EDITOR : bool.
Variable eng : Engine.

Lemma FindPathToXODRFile_run (InMapName : FString) (s : @State UOpenDriveMap) :
  FindPathToXODRFile WITH_EDITOR eng InMapName s =
  if FileExists eng (default_path WITH_EDITOR eng InMapName)
  then (default_path WITH_EDITOR eng InMapName,
        after s [CallFileExists (default_path WITH_EDITOR eng InMapName)])
  else (match FindFiles eng (ProjectContentDir eng)
                        (file_name WITH_EDITOR eng InMapName) true false with
        | first :: _ => first
        | [] => EmptyString
        end,
        after s [CallFileExists (default_path WITH_EDITOR eng InMapName);
                 CallFindFilesRecursive (ProjectContentDir eng)
                                        (file_name WITH_EDITOR eng InMapName)
                                        true false false]).
Proof.
  unfold FindPathToXODRFile, file_exists, find_files_recursive, bind, emit, ret.
  fold (file_name WITH_EDITOR eng InMapName).
  fold (default_path WITH_EDITOR eng InMapName).
  destruct (FileExists eng (default_path WITH_EDITOR eng InMapName)); [reflexivity|].
  unfold after. cbn [trace objects app]. now rewrite <- app_assoc.
Qed.

(** C2: for every map name, when the file at the conventional path
    <ProjectContentDir>Carla/Maps/OpenDrive/<name>.xodr exists (<name> being
    the map name as the routine uses it: the given one, without the editor
    prefix in an editor build), that path is returned after the single
    call to FileExists; the recursive search is not called, whatever it
    would find. *)
Theorem FindPathToXODRFile_prefers_default (InMapName : FString) (s : @State UOpenDriveMap) :
  FileExists eng (ProjectContentDir eng ++ "Carla/Maps/OpenDrive/" ++
                  RemovePIEPrefix WITH_EDITOR eng InMapName ++ ".xodr")%string = true ->
  (WITH_EDITOR = false -> RemovePIEPrefix WITH_EDITOR eng InMapName = InMapName) /\
  fst (FindPathToXODRFile WITH_EDITOR eng InMapName s) =
    (ProjectContentDir eng ++ "Carla/Maps/OpenDrive/" ++
     RemovePIEPrefix WITH_EDITOR eng InMapName ++ ".xodr")%string /\
  snd (FindPathToXODRFile WITH_EDITOR eng InMapName s) =
    after s [CallFileExists (ProjectContentDir eng ++ "Carla/Maps/OpenDrive/" ++
                             RemovePIEPrefix WITH_EDITOR eng InMapName ++ ".xodr")%string] /\
  existsb is_find (trace (snd (FindPathToXODRFile WITH_EDITOR eng InMapName s))) =
    existsb is_find (trace s).
Proof.
  intros H. fold (file_name WITH_EDITOR eng InMapName) in *.
  fold (default_path WITH_EDITOR eng InMapName) in *.
  rewrite FindPathToXODRFile_run, H. cbn [fst snd].
  split; [intros ->; reflexivity|]. split; [reflexivity|]. split; [reflexivity|].
  unfold after. cbn [trace]. rewrite existsb_app. cbn. now rewrite orb_false_r.
Qed.

(** C3: for every map name for which no file exists at the conventional
    path, the content directory is searched recursively for the file name
    <name>.xodr (files only), and the result is the first path found, or
    the empty string when nothing is found. *)
Theorem FindPathToXODRFile_falls_back (InMapName : FString) (s : @State UOpenDriveMap) :
  FileExists eng (ProjectContentDir eng ++ "Carla/Maps/OpenDrive/" ++
                  RemovePIEPrefix WITH_EDITOR eng InMapName ++ ".xodr")%string = false ->
  snd (FindPathToXODRFile WITH_EDITOR eng InMapName s) =
    after s [CallFileExists (ProjectContentDir eng ++ "Carla/Maps/OpenDrive/" ++
                             RemovePIEPrefix WITH_EDITOR eng InMapName ++ ".xodr")%string;
             CallFindFilesRecursive
               (ProjectContentDir eng)
               (RemovePIEPrefix WITH_EDITOR eng InMapName ++ ".xodr")%string
               true false false] /\
  (forall first others,
      FindFiles eng (ProjectContentDir eng)
                (RemovePIEPrefix WITH_EDITOR eng InMapName ++ ".xodr")%string
                true false = first :: others ->
      fst (FindPathToXODRFile WITH_EDITOR eng InMapName s) = first) /\
  (FindFiles eng (ProjectContentDir eng)
             (RemovePIEPrefix WITH_EDITOR eng InMapName ++ ".xodr")%string
             true false = [] ->
   fst (FindPathToXODRFile WITH_EDITOR eng InMapName s) = EmptyString).
Proof.
  intros H. fold (file_name WITH_EDITOR eng InMapName) in *.
  fold (default_path WITH_EDITOR eng InMapName) in *.
  rewrite FindPathToXODRFile_run, H. cbn [fst snd].
  split; [reflexivity|]. split.
  - intros first others E. now rewrite E.
  - intros E. now rewrite E.
Qed.

(** C6: in an editor build the prefix "UEDPIE_0_" is removed from the start
    of the map name before ".xodr" is appended, and the lookup goes on as
    it does for the remaining name.  The prefix is looked for with the
    engine's comparison under its default search case: first characters
    that read as the prefix under it (up to letter case, when it ignores
    case) are removed, and a name that does not begin with the prefix as
    that comparison reads it is left as it is; under the case-sensitive
    comparison that is every name that does not begin with "UEDPIE_0_". *)
Theorem RemovePIEPrefix_editor (InMapName : FString) (s : @State UOpenDriveMap) :
  (forall rest, RemovePIEPrefix true eng ("UEDPIE_0_" ++ rest)%string = rest) /\
  (forall q rest,
      Conditions.fold_case (DefaultSearchCase eng) q =
      Conditions.fold_case (DefaultSearchCase eng) "UEDPIE_0_" ->
      RemovePIEPrefix true eng (q ++ rest)%string = rest) /\
  (~ Conditions.begins_with (DefaultSearchCase eng) InMapName "UEDPIE_0_" ->
   RemovePIEPrefix true eng InMapName = InMapName) /\
  (RemovePIEPrefix true eng InMapName <> InMapName ->
   exists q, InMapName = (q ++ RemovePIEPrefix true eng InMapName)%string /\
             Conditions.fold_case (DefaultSearchCase eng) q =
             Conditions.fold_case (DefaultSearchCase eng) "UEDPIE_0_") /\
  (DefaultSearchCase eng = CaseSensitive ->
   (forall rest, InMapName <> ("UEDPIE_0_" ++ rest)%string) ->
   RemovePIEPrefix true eng InMapName = InMapName) /\
  FindPathToXODRFile true eng InMapName s =
  FindPathToXODRFile false eng (RemovePIEPrefix true eng InMapName) s /\
  (forall rest path,
      FileExists eng path = true ->
      path = (ProjectContentDir eng ++ "Carla/Maps/OpenDrive/" ++ rest ++ ".xodr")%string ->
      fst (FindPathToXODRFile true eng ("UEDPIE_0_" ++ rest)%string s) = path).
Proof.
  assert (Hfold : forall q rest,
             Conditions.fold_case (DefaultSearchCase eng) q =
             Conditions.fold_case (DefaultSearchCase eng) "UEDPIE_0_" ->
             RemovePIEPrefix true eng (q ++ rest)%string = rest).
  { intros q rest Hq. unfold RemovePIEPrefix, PIEPrefix, RemoveFromStart, StartsWith.
    replace (prefix_matches (DefaultSearchCase eng) "UEDPIE_0_" (q ++ rest)%string)
      with true
      by (symmetry; apply prefix_matches_begins; now exists q, rest).
    cbn [IsEmpty negb andb].
    replace (Len "UEDPIE_0_") with (Len q); [apply drop_app|].
    rewrite <- (fold_case_Len (DefaultSearchCase eng) q), Hq.
    apply fold_case_Len. }
  assert (Hrm : forall rest, RemovePIEPrefix true eng ("UEDPIE_0_" ++ rest)%string = rest).
  { intros rest. now apply Hfold. }
  assert (Hkeep : StartsWith InMapName "UEDPIE_0_" (DefaultSearchCase eng) = false ->
                  RemovePIEPrefix true eng InMapName = InMapName).
  { intros H. unfold RemovePIEPrefix, PIEPrefix, RemoveFromStart. now rewrite H. }
  assert (Hstarts : StartsWith InMapName "UEDPIE_0_" (DefaultSearchCase eng) = true ->
                    Conditions.begins_with (DefaultSearchCase eng) InMapName "UEDPIE_0_").
  { intros E. unfold StartsWith in E. apply andb_prop in E as [_ E].
    now apply prefix_matches_begins. }
  split; [exact Hrm|]. split; [exact Hfold|]. split; [|split; [|split; [|split]]].
  - intros Hno. apply Hkeep.
    destruct (StartsWith InMapName "UEDPIE_0_" (DefaultSearchCase eng));
      [|reflexivity].
    now destruct (Hno (Hstarts eq_refl)).
  - intros Hchanged.
    destruct (StartsWith InMapName "UEDPIE_0_" (DefaultSearchCase eng));
      [|now destruct (Hchanged (Hkeep eq_refl))].
    destruct (Hstarts eq_refl) as (q & rest & -> & Hq).
    exists q. now rewrite (Hfold q rest Hq).
  - intros Hsc Hno. apply Hkeep. rewrite Hsc.
    destruct (StartsWith InMapName "UEDPIE_0_" CaseSensitive) eqn:E; [|reflexivity].
    unfold StartsWith in E. apply andb_prop in E as [_ E].
    apply prefix_matches_sensitive in E as [r Hr]. now destruct (Hno r).
  - reflexivity.
  - intros rest path Hex ->.
    unfold FindPathToXODRFile, file_exists, bind, emit, ret.
    rewrite Hrm, Hex. reflexivity.
Qed.

End Lookup.

Section Loading.
Context {UOpenDriveMap : Type}.
Variable WITH_EDITOR : bool.
Variable eng : Engine.

(** LoadXODR after the lookup: the three branches. *)
Lemma LoadXODR_run (MapName : FString) (s : @State UOpenDriveMap) :
  LoadXODR WITH_EDITOR eng MapName s =
  let '(FilePath, s1) := FindPathToXODRFile WITH_EDITOR eng MapName s in
  if IsEmpty FilePath then
    (EmptyString,
     after s1 [LogLine Error
                 ("Failed to find OpenDrive file for map '" ++ MapName ++ "'")%string])
  else
    match LoadFile eng FilePath with
    | Some text =>
        (text, after s1 [CallLoadFileToString FilePath;
                         LogLine Log ("Loaded OpenDrive file '" ++ FilePath ++ "'")%string])
    | None =>
        (EmptyString,
         after s1 [CallLoadFileToString FilePath;
                   LogLine Error
                     ("Failed to load OpenDrive file '" ++ FilePath ++ "'")%string])
    end.
Proof.
  unfold LoadXODR. unfold bind at 1.
  destruct (FindPathToXODRFile WITH_EDITOR eng MapName s) as [FilePath s1].
  destruct (IsEmpty FilePath); [reflexivity|].
  unfold load_file_to_string, UE_LOG, bind, emit, ret, after. cbn [trace objects].
  destruct (LoadFile eng FilePath); cbn [trace objects];
    now rewrite <- app_assoc.
Qed.

(** X8: in LoadXODR both failures, no path found and a path that cannot be
    read, give the empty string and end with a line logged as an error. *)
Lemma LoadXODR_failure_logged (MapName : FString) (s : @State UOpenDriveMap) :
  let FilePath := fst (FindPathToXODRFile WITH_EDITOR eng MapName s) in
  FilePath = EmptyString \/ LoadFile eng FilePath = None ->
  fst (LoadXODR WITH_EDITOR eng MapName s) = EmptyString /\
  exists before msg,
    trace (snd (LoadXODR WITH_EDITOR eng MapName s)) = before ++ [LogLine Error msg].
Proof.
  intros FilePath H. rewrite LoadXODR_run. subst FilePath.
  destruct (FindPathToXODRFile WITH_EDITOR eng MapName s) as [FilePath s1].
  cbn [fst] in H. unfold after.
  destruct (IsEmpty FilePath) eqn:E.
  - split; [reflexivity|]. cbn [snd trace]. eauto.
  - destruct H as [-> | H]; [discriminate|]. rewrite H.
    split; [reflexivity|]. cbn [snd trace].
    exists (trace s1 ++ [CallLoadFileToString FilePath]). eexists.
    now rewrite <- app_assoc.
Qed.

(** GetXODRByPath on a file that is found and cannot be read: the empty
    string is returned and nothing is logged. *)
Lemma GetXODRByPath_unreadable (XODRPath MapName first : FString)
      (others : list FString) (s : @State UOpenDriveMap) :
  let Name := RemovePIEPrefix WITH_EDITOR eng MapName in
  let FileName :=
    ((if EndsWith XODRPath Name (DefaultSearchCase eng) then "*" else Name)
       ++ ".xodr")%string in
  let FolderDir := RemoveFromEnd XODRPath (Name ++ ".xodr")%string (DefaultSearchCase eng) in
  FindFiles eng FolderDir FileName true false = first :: others ->
  LoadFile eng first = None ->
  GetXODRByPath WITH_EDITOR eng XODRPath MapName s =
  (EmptyString,
   after s [CallFindFilesRecursive FolderDir FileName true false false;
            CallLoadFileToString first]).
Proof.
  intros Name FileName FolderDir Hfind Hload.
  unfold GetXODRByPath, find_files_recursive, load_file_to_string, bind, emit, ret.
  fold Name. fold FolderDir. cbn [app trace objects]. fold FileName.
  rewrite Hfind, Hload. unfold after. cbn [trace objects].
  now rewrite <- app_assoc.
Qed.

(** X13: GetXODRByPath on a file that is found and cannot be read returns
    the empty string and leaves the log as it was before the call. *)
Lemma GetXODRByPath_unreadable_silent (XODRPath MapName first : FString)
      (others : list FString) (s : @State UOpenDriveMap) :
  let Name := RemovePIEPrefix WITH_EDITOR eng MapName in
  let FileName :=
    ((if EndsWith XODRPath Name (DefaultSearchCase eng) then "*" else Name)
       ++ ".xodr")%string in
  let FolderDir := RemoveFromEnd XODRPath (Name ++ ".xodr")%string (DefaultSearchCase eng) in
  FindFiles eng FolderDir FileName true false = first :: others ->
  LoadFile eng first = None ->
  fst (GetXODRByPath WITH_EDITOR eng XODRPath MapName s) = EmptyString /\
  filter is_log (trace (snd (GetXODRByPath WITH_EDITOR eng XODRPath MapName s))) =
  filter is_log (trace s).
Proof.
  intros Name FileName FolderDir Hfind Hload.
  rewrite (GetXODRByPath_unreadable XODRPath MapName first others s Hfind Hload).
  cbn [fst snd]. split; [reflexivity|].
  unfold after. cbn [trace]. rewrite filter_app. cbn. apply app_nil_r.
Qed.

End Loading.

Section MapObjects.
Context {UOpenDriveMap : Type}.
Variable WITH_EDITOR : bool.
Variable eng : Engine.
Variable NewObject : UOpenDriveMap.
Variable Load : UOpenDriveMap -> FString -> UOpenDriveMap.

Lemma update_at_end (l : list UOpenDriveMap) (x : UOpenDriveMap)
      (f : UOpenDriveMap -> UOpenDriveMap) :
  update (l ++ [x]) (List.length l) f = l ++ [f x].
Proof.
  induction l as [|y l IH]; cbn [update app List.length]; [reflexivity|].
  now rewrite IH.
Qed.

Lemma IsEmpty_true (s : FString) : IsEmpty s = true <-> s = EmptyString.
Proof. destruct s; split; (reflexivity || discriminate). Qed.

Lemma LoadOpenDriveMap_run (MapName : FString) (s : @State UOpenDriveMap) :
  LoadOpenDriveMap WITH_EDITOR eng NewObject Load MapName s =
  let '(XODRContent, s1) := LoadXODR WITH_EDITOR eng MapName s in
  if IsEmpty XODRContent then (None, s1)
  else (Some (List.length (objects s1)),
        mkState (trace s1) (objects s1 ++ [Load NewObject XODRContent])).
Proof.
  unfold LoadOpenDriveMap. unfold bind at 1.
  destruct (LoadXODR WITH_EDITOR eng MapName s) as [content s1].
  destruct (IsEmpty content); cbn [negb]; [reflexivity|].
  unfold bind, new_object, map_load, ret. cbn [trace objects].
  now rewrite update_at_end.
Qed.

(** C9: LoadOpenDriveMap returns the null pointer exactly when the content
    LoadXODR returns is empty, and then does nothing more; otherwise it
    returns a pointer to an object that did not exist before, which is
    NewObject<UOpenDriveMap>() after Load(content), the other objects and
    the events being as LoadXODR left them. *)
Theorem LoadOpenDriveMap_null_iff_empty (MapName : FString) (s : @State UOpenDriveMap) :
  let XODRContent := fst (LoadXODR WITH_EDITOR eng MapName s) in
  let s1 := snd (LoadXODR WITH_EDITOR eng MapName s) in
  let result := LoadOpenDriveMap WITH_EDITOR eng NewObject Load MapName s in
  (fst result = None <-> XODRContent = EmptyString) /\
  (XODRContent = EmptyString -> snd result = s1) /\
  (XODRContent <> EmptyString ->
   fst result = Some (List.length (objects s1)) /\
   nth_error (objects s1) (List.length (objects s1)) = None /\
   nth_error (objects (snd result)) (List.length (objects s1)) =
     Some (Load NewObject XODRContent) /\
   objects (snd result) = objects s1 ++ [Load NewObject XODRContent] /\
   trace (snd result) = trace s1).
Proof.
  intros XODRContent s1 result. subst XODRContent s1 result.
  rewrite LoadOpenDriveMap_run.
  destruct (LoadXODR WITH_EDITOR eng MapName s) as [content s1]. cbn [fst snd].
  destruct (IsEmpty content) eqn:E.
  - apply IsEmpty_true in E. subst content. cbn [fst snd].
    split; [split; reflexivity|]. split; [reflexivity|]. now intros [].
  - assert (Hne : content <> EmptyString).
    { intros ->. discriminate E. }
    cbn [fst snd trace objects].
    split; [split; [discriminate | contradiction]|].
    split; [contradiction|]. intros _.
    split; [reflexivity|]. split; [now apply nth_error_None|].
    split; [|split; reflexivity].
    rewrite nth_error_app2 by apply Nat.le_refl.
    now rewrite Nat.sub_diag.
Qed.

End MapObjects.

(** On the content directory of [Demo]: Town01 lies at the
    conventional path and would be found a second time by the search. *)
Lemma FindPathToXODRFile_prefers_default_witness :
  FindPathToXODRFile false (Demo.content IgnoreCase) "Town01" Demo.empty_state =
  ("/Game/Content/Carla/Maps/OpenDrive/Town01.xodr"%string,
   mkState [CallFileExists "/Game/Content/Carla/Maps/OpenDrive/Town01.xodr"] []) /\
  FindFiles (Demo.content IgnoreCase) "/Game/Content/" "Town01.xodr" true false =
  ["/Game/Content/Carla/Maps/OpenDrive/Town01.xodr"%string;
   "/Game/Content/Backup/Town01.xodr"%string].
Proof.
  pose proof (FindPathToXODRFile_prefers_default
                false (Demo.content IgnoreCase) "Town01" Demo.empty_state eq_refl)
    as (_ & H1 & H2 & _).
  split; [|reflexivity].
  rewrite (surjective_pairing (FindPathToXODRFile _ _ _ _)), H1, H2.
  reflexivity.
Defined.

(** On the same directory: Town04 is found twice by the search, Town05
    nowhere. *)
Lemma FindPathToXODRFile_falls_back_witness :
  fst (FindPathToXODRFile false (Demo.content IgnoreCase) "Town04" Demo.empty_state) =
  "/Game/Content/Custom/Town04.xodr"%string /\
  fst (FindPathToXODRFile false (Demo.content IgnoreCase) "Town05" Demo.empty_state) =
  EmptyString.
Proof.
  split.
  - apply (proj1 (proj2 (FindPathToXODRFile_falls_back
             false (Demo.content IgnoreCase) "Town04" Demo.empty_state eq_refl))
             _ ["/Game/Content/Backup/Town04.xodr"%string]).
    reflexivity.
  - apply (proj2 (proj2 (FindPathToXODRFile_falls_back
             false (Demo.content IgnoreCase) "Town05" Demo.empty_state eq_refl))).
    reflexivity.
Defined.

(** On the same directory, in an editor build whose comparison ignores
    case: the prefix is removed in either spelling, and Town01 is kept. *)
Lemma RemovePIEPrefix_editor_witness :
  fst (FindPathToXODRFile true (Demo.content IgnoreCase) "UEDPIE_0_Town01"
                          Demo.empty_state) =
  "/Game/Content/Carla/Maps/OpenDrive/Town01.xodr"%string /\
  RemovePIEPrefix true (Demo.content IgnoreCase) "uedpie_0_Town01" = "Town01"%string /\
  RemovePIEPrefix true (Demo.content IgnoreCase) "Town01" = "Town01"%string.
Proof.
  pose proof (RemovePIEPrefix_editor (Demo.content IgnoreCase)
                "UEDPIE_0_Town01" Demo.empty_state) as (_ & H2 & _ & _ & _ & _ & H).
  pose proof (RemovePIEPrefix_editor (UOpenDriveMap := list FString)
                (Demo.content IgnoreCase)
                "Town01" Demo.empty_state) as (_ & _ & H3 & _).
  split; [|split].
  - apply (H "Town01"%string); reflexivity.
  - apply (H2 "uedpie_0_"%string "Town01"%string). reflexivity.
  - apply H3. intros B. apply prefix_matches_begins in B. discriminate B.
Defined.

(** The name "uedpie_0_Town01" does not begin with "UEDPIE_0_", and an
    editor build whose engine compares without regard to case (the default
    search case of Unreal Engine's FString) changes it to "Town01": a name
    without the prefix is not always left as it is. *)
Lemma RemovePIEPrefix_ignores_case :
  (forall rest, "uedpie_0_Town01"%string <> ("UEDPIE_0_" ++ rest)%string) /\
  RemovePIEPrefix true (Demo.content IgnoreCase) "uedpie_0_Town01" = "Town01"%string /\
  ~ (forall InMapName : FString,
        (forall rest, InMapName <> ("UEDPIE_0_" ++ rest)%string) ->
        RemovePIEPrefix true (Demo.content IgnoreCase) InMapName = InMapName).
Proof.
  assert (Hno : forall rest, "uedpie_0_Town01"%string <> ("UEDPIE_0_" ++ rest)%string)
    by (intros rest; discriminate).
  split; [exact Hno|]. split; [reflexivity|].
  intros H. specialize (H "uedpie_0_Town01"%string Hno). discriminate H.
Qed.

(** On the same directory: Town01 can be read, Town02 cannot. *)
Lemma LoadOpenDriveMap_null_iff_empty_witness :
  LoadOpenDriveMap false (Demo.content IgnoreCase) [] Demo.record_load "Town01"
                   Demo.empty_state =
  (Some O,
   mkState [CallFileExists "/Game/Content/Carla/Maps/OpenDrive/Town01.xodr";
            CallLoadFileToString "/Game/Content/Carla/Maps/OpenDrive/Town01.xodr";
            LogLine Log
              "Loaded OpenDrive file '/Game/Content/Carla/Maps/OpenDrive/Town01.xodr'"]
           [["<OpenDRIVE>Town01</OpenDRIVE>"%string]]) /\
  fst (LoadOpenDriveMap false (Demo.content IgnoreCase) [] Demo.record_load "Town02"
                        Demo.empty_state) = None.
Proof.
  split.
  - pose proof (LoadOpenDriveMap_null_iff_empty
                  false (Demo.content IgnoreCase) [] Demo.record_load
                  "Town01" Demo.empty_state) as (_ & _ & H).
    destruct H as (H1 & _ & _ & H2 & H3); [discriminate|].
    rewrite (surjective_pairing (LoadOpenDriveMap _ _ _ _ _ _)).
    rewrite H1. reflexivity.
  - apply (proj1 (LoadOpenDriveMap_null_iff_empty
                    false (Demo.content IgnoreCase) [] Demo.record_load
                    "Town02" Demo.empty_state)).
    reflexivity.
Defined.

(** C7: GetXODRByPath on a file that is found and cannot be read returns
    the empty string without writing to the log (the events are the search
    and the attempt to load), where LoadXODR and GetXODR on the same file
    log "Failed to load OpenDrive file". *)
Theorem GetXODRByPath_failure_not_logged :
  GetXODRByPath false (Demo.content IgnoreCase)
                "/Game/Content/Custom/Town02.xodr" "Town02" Demo.empty_state =
  (EmptyString,
   mkState [CallFindFilesRecursive "/Game/Content/Custom/" "Town02.xodr" true false false;
            CallLoadFileToString "/Game/Content/Custom/Town02.xodr"] []) /\
  LoadXODR false (Demo.content IgnoreCase) "Town02" Demo.empty_state =
  (EmptyString,
   mkState [CallFileExists "/Game/Content/Carla/Maps/OpenDrive/Town02.xodr";
            CallFindFilesRecursive "/Game/Content/" "Town02.xodr" true false false;
            CallLoadFileToString "/Game/Content/Custom/Town02.xodr";
            LogLine Error
              "Failed to load OpenDrive file '/Game/Content/Custom/Town02.xodr'"] []) /\
  GetXODR false (Demo.content IgnoreCase) "Town02" "/Game/Content/Custom"
          Demo.empty_state =
  (EmptyString,
   mkState [CallFindFilesRecursive "/Game/Content/Custom/OpenDrive/" "Town02.xodr"
                                   true false false;
            CallLoadFileToString "/Game/Content/Custom/Town02.xodr";
            LogLine Error
              "Failed to load OpenDrive file '/Game/Content/Custom/Town02.xodr'"] []).
Proof. split; [|split]; vm_compute; reflexivity. Qed.

End OpenDriveFacts.

(** ** The OpenDrive file: the remaining functions *)

Module OpenDriveCoverage.
Import OpenDrive Conditions OpenDriveFacts.
Local Open Scope list_scope.

Lemma Len_app (a b : FString) : Len (a ++ b)%string = (Len a + Len b)%nat.
Proof.
  unfold Len. induction a as [|c a IH]; cbn [append String.length]; [reflexivity|].
  now rewrite IH.
Qed.

Lemma take_app (a b : FString) : take (Len a) (a ++ b)%string = a.
Proof.
  induction a as [|c a IH]; [reflexivity|].
  cbn [Len String.length append take]. f_equal. exact IH.
Qed.

Lemma prefix_matches_refl (sc : ESearchCase) (a : FString) :
  prefix_matches sc a a = true.
Proof.
  induction a as [|c a IH]; cbn [prefix_matches]; [reflexivity|].
  now rewrite char_eq_refl, IH.
Qed.

Lemma EndsWith_app (sc : ESearchCase) (a suffix : FString) :
  suffix <> EmptyString -> EndsWith (a ++ suffix)%string suffix sc = true.
Proof.
  intros Hs. unfold EndsWith. rewrite Len_app.
  replace (Len a + Len suffix - Len suffix)%nat with (Len a) by lia.
  rewrite drop_app, prefix_matches_refl.
  replace (Len suffix <=? Len a + Len suffix)%nat with true
    by (symmetry; apply Nat.leb_le; lia).
  destruct suffix; [contradiction | reflexivity].
Qed.

Lemma RemoveFromEnd_app (sc : ESearchCase) (a suffix : FString) :
  suffix <> EmptyString -> RemoveFromEnd (a ++ suffix)%string suffix sc = a.
Proof.
  intros Hs. unfold RemoveFromEnd. rewrite (EndsWith_app sc a suffix Hs).
  rewrite Len_app.
  replace (Len a + Len suffix - Len suffix)%nat with (Len a) by lia.
  apply take_app.
Qed.

Lemma xodr_name_not_empty (n : FString) : (n ++ ".xodr")%string <> EmptyString.
Proof. destruct n; discriminate. Qed.

Section Readers.
Context {UOpenDriveMap : Type}.
Variable WITH_EDITOR : bool.
Variable eng : Engine.

(** GetXODRByPath, branch by branch. *)
Lemma GetXODRByPath_run (XODRPath MapName : FString) (s : @State UOpenDriveMap) :
  let Name := RemovePIEPrefix WITH_EDITOR eng MapName in
  let FileName :=
    ((if EndsWith XODRPath Name (DefaultSearchCase eng) then "*" else Name)
       ++ ".xodr")%string in
  let FolderDir := RemoveFromEnd XODRPath (Name ++ ".xodr")%string (DefaultSearchCase eng) in
  GetXODRByPath WITH_EDITOR eng XODRPath MapName s =
  match FindFiles eng FolderDir FileName true false with
  | [] =>
      (EmptyString,
       after s [CallFindFilesRecursive FolderDir FileName true false false;
                LogLine Error
                  ("Failed to find OpenDrive file for map '" ++ Name ++ "'")%string])
  | first :: _ =>
      match LoadFile eng first with
      | Some text =>
          (text,
           after s [CallFindFilesRecursive FolderDir FileName true false false;
                    CallLoadFileToString first;
                    LogLine Log ("Loaded OpenDrive file '" ++ first ++ "'")%string])
      | None =>
          (EmptyString,
           after s [CallFindFilesRecursive FolderDir FileName true false false;
                    CallLoadFileToString first])
      end
  end.
Proof.
  intros Name FileName FolderDir.
  unfold GetXODRByPath, find_files_recursive, load_file_to_string, UE_LOG,
    bind, emit, ret.
  fold Name. fold FolderDir. cbn [app trace objects]. fold FileName.
  unfold after.
  destruct (FindFiles eng FolderDir FileName true false) as [|first others].
  - cbn [trace objects]. now rewrite <- app_assoc.
  - destruct (LoadFile eng first); cbn [trace objects];
      now rewrite <- ?app_assoc.
Qed.

(** GetXODR, branch by branch. *)
Lemma GetXODR_run (WorldMapName MapDir : FString) (s : @State UOpenDriveMap) :
  let Name := RemovePIEPrefix WITH_EDITOR eng WorldMapName in
  let FileName :=
    ((if EndsWith MapDir Name (DefaultSearchCase eng) then "*" else Name)
       ++ ".xodr")%string in
  let FolderDir := (MapDir ++ "/OpenDrive/")%string in
  GetXODR WITH_EDITOR eng WorldMapName MapDir s =
  match FindFiles eng FolderDir FileName true false with
  | [] =>
      (EmptyString,
       after s [CallFindFilesRecursive FolderDir FileName true false false;
                LogLine Error
                  ("Failed to find OpenDrive file for map '" ++ Name ++ "'")%string])
  | first :: _ =>
      match LoadFile eng first with
      | Some text =>
          (text,
           after s [CallFindFilesRecursive FolderDir FileName true false false;
                    CallLoadFileToString first;
                    LogLine Log ("Loaded OpenDrive file '" ++ first ++ "'")%string])
      | None =>
          (EmptyString,
           after s [CallFindFilesRecursive FolderDir FileName true false false;
                    CallLoadFileToString first;
                    LogLine Error
                      ("Failed to load OpenDrive file '" ++ first ++ "'")%string])
      end
  end.
Proof.
  intros Name FileName FolderDir.
  unfold GetXODR, find_files_recursive, load_file_to_string, UE_LOG,
    bind, emit, ret.
  fold Name. fold FolderDir. cbn [app trace objects]. fold FileName.
  unfold after.
  destruct (FindFiles eng FolderDir FileName true false) as [|first others].
  - cbn [trace objects]. now rewrite <- app_assoc.
  - destruct (LoadFile eng first); cbn [trace objects];
      now rewrite <- !app_assoc.
Qed.

Lemma after_trace (s : @State UOpenDriveMap) (events : list Event) :
  trace (after s events) = trace s ++ events /\ objects (after s events) = objects s.
Proof. split; reflexivity. Qed.

Lemma FindPathToXODRFile_state (InMapName : FString) (s : @State UOpenDriveMap) :
  exists events,
    snd (FindPathToXODRFile WITH_EDITOR eng InMapName s) = after s events /\
    existsb is_log events = false.
Proof.
  rewrite FindPathToXODRFile_run.
  destruct (FileExists eng (default_path WITH_EDITOR eng InMapName));
    eexists; split; reflexivity.
Qed.

(** X9: when LoadXODR returns text, the lookup had found a path, the text
    is what LoadFileToString read from the file at that path, and the only
    events after the lookup are that read and the line "Loaded OpenDrive
    file '<path>'" in the log. *)
Theorem LoadXODR_content_from_file (MapName : FString) (s : @State UOpenDriveMap) :
  fst (LoadXODR WITH_EDITOR eng MapName s) <> EmptyString ->
  let FilePath := fst (FindPathToXODRFile WITH_EDITOR eng MapName s) in
  FilePath <> EmptyString /\
  LoadFile eng FilePath = Some (fst (LoadXODR WITH_EDITOR eng MapName s)) /\
  snd (LoadXODR WITH_EDITOR eng MapName s) =
  after (snd (FindPathToXODRFile WITH_EDITOR eng MapName s))
        [CallLoadFileToString FilePath;
         LogLine Log ("Loaded OpenDrive file '" ++ FilePath ++ "'")%string].
Proof.
  rewrite LoadXODR_run.
  destruct (FindPathToXODRFile WITH_EDITOR eng MapName s) as [FilePath s1].
  cbn [fst snd]. destruct (IsEmpty FilePath) eqn:E.
  - intros H. now destruct H.
  - destruct (LoadFile eng FilePath) as [text|]; cbn [fst snd];
      [|intros H; now destruct H].
    intros _. split; [|split; reflexivity]. intros ->. discriminate E.
Qed.

(** X11: GetXODR returns the empty string and ends with a line logged as an
    error both when its search finds nothing and when the first file found
    cannot be read. *)
Theorem GetXODR_failure_logged (WorldMapName MapDir : FString)
        (s : @State UOpenDriveMap) :
  let Name := RemovePIEPrefix WITH_EDITOR eng WorldMapName in
  let Files :=
    FindFiles eng (MapDir ++ "/OpenDrive/")%string
              ((if EndsWith MapDir Name (DefaultSearchCase eng) then "*" else Name)
                 ++ ".xodr")%string true false in
  Files = [] \/ (exists first, hd_error Files = Some first /\ LoadFile eng first = None) ->
  fst (GetXODR WITH_EDITOR eng WorldMapName MapDir s) = EmptyString /\
  exists before msg,
    trace (snd (GetXODR WITH_EDITOR eng WorldMapName MapDir s)) =
    before ++ [LogLine Error msg].
Proof.
  intros Name Files H. pose proof (GetXODR_run WorldMapName MapDir s) as R.
  cbv zeta in R. fold Name in R. fold Files in R. rewrite R.
  destruct Files as [|first others].
  - split; [reflexivity|]. cbn [snd]. unfold after. cbn [trace].
    exists (trace s ++ [CallFindFilesRecursive (MapDir ++ "/OpenDrive/")%string
                          ((if EndsWith MapDir Name (DefaultSearchCase eng)
                            then "*" else Name) ++ ".xodr")%string true false false]).
    eexists. now rewrite <- app_assoc.
  - destruct H as [H | (f & Hf & Hload)]; [discriminate|].
    cbn [hd_error] in Hf. injection Hf as <-. rewrite Hload.
    split; [reflexivity|]. cbn [snd]. unfold after. cbn [trace].
    eexists (trace s ++ [_; _]). eexists. now rewrite <- app_assoc.
Qed.

(** X14: when GetXODRByPath returns text, it is what LoadFileToString read
    from the first file its search found, and "Loaded OpenDrive file" was
    logged for that file. *)
Theorem GetXODRByPath_content_from_first (XODRPath MapName : FString)
        (s : @State UOpenDriveMap) :
  fst (GetXODRByPath WITH_EDITOR eng XODRPath MapName s) <> EmptyString ->
  let Name := RemovePIEPrefix WITH_EDITOR eng MapName in
  let FileName :=
    ((if EndsWith XODRPath Name (DefaultSearchCase eng) then "*" else Name)
       ++ ".xodr")%string in
  let FolderDir :=
    RemoveFromEnd XODRPath (Name ++ ".xodr")%string (DefaultSearchCase eng) in
  exists first,
    hd_error (FindFiles eng FolderDir FileName true false) = Some first /\
    LoadFile eng first = Some (fst (GetXODRByPath WITH_EDITOR eng XODRPath MapName s)) /\
    snd (GetXODRByPath WITH_EDITOR eng XODRPath MapName s) =
    after s [CallFindFilesRecursive FolderDir FileName true false false;
             CallLoadFileToString first;
             LogLine Log ("Loaded OpenDrive file '" ++ first ++ "'")%string].
Proof.
  pose proof (GetXODRByPath_run XODRPath MapName s) as R. cbv zeta in R.
  rewrite R. intros H Name FileName FolderDir. fold Name FileName FolderDir in H |- *.
  fold FileName in H |- *.
  destruct (FindFiles eng FolderDir FileName true false) as [|first others].
  - now destruct H.
  - destruct (LoadFile eng first) as [text|] eqn:E; [|now destruct H].
    exists first. cbn [fst snd hd_error].
    split; [reflexivity | split; [exact E | reflexivity]].
Qed.

(** X15: given the path <dir><name>.xodr of a map's file (<name> as the
    routine uses it), GetXODRByPath searches <dir>: the file name is taken
    off the end of the path.  Given a path that the engine does not find to
    end with <name>.xodr, it searches below that very path. *)
Theorem GetXODRByPath_search_folder (MapName : FString) (s : @State UOpenDriveMap) :
  let Name := RemovePIEPrefix WITH_EDITOR eng MapName in
  (forall dir,
      exists pattern rest,
        trace (snd (GetXODRByPath WITH_EDITOR eng (dir ++ Name ++ ".xodr")%string
                                  MapName s)) =
        trace s ++ CallFindFilesRecursive dir pattern true false false :: rest) /\
  (forall XODRPath,
      EndsWith XODRPath (Name ++ ".xodr")%string (DefaultSearchCase eng) = false ->
      exists pattern rest,
        trace (snd (GetXODRByPath WITH_EDITOR eng XODRPath MapName s)) =
        trace s ++ CallFindFilesRecursive XODRPath pattern true false false :: rest).
Proof.
  intros Name. split.
  - intros dir.
    pose proof (GetXODRByPath_run (dir ++ Name ++ ".xodr")%string MapName s) as R.
    cbv zeta in R. fold Name in R.
    rewrite (RemoveFromEnd_app _ dir (Name ++ ".xodr")%string
               (xodr_name_not_empty Name)) in R.
    rewrite R. eexists.
    destruct (FindFiles eng dir _ true false) as [|first others];
      [|destruct (LoadFile eng first)]; eexists; reflexivity.
  - intros XODRPath H.
    pose proof (GetXODRByPath_run XODRPath MapName s) as R.
    cbv zeta in R. fold Name in R. unfold RemoveFromEnd in R. rewrite H in R.
    rewrite R. eexists.
    destruct (FindFiles eng XODRPath _ true false) as [|first others];
      [|destruct (LoadFile eng first)]; eexists; reflexivity.
Qed.

(** X12: when the map directory ends with the map's name, GetXODR searches
    the folder OpenDrive below it for "*.xodr" and tries the first file
    the search reports, whatever that file is called, and no other: it
    returns that file's text when it can be read, and the empty string
    with a line logged as an error when it cannot, or when nothing is
    found. *)
Theorem GetXODR_wildcard (dir WorldMapName : FString) (s : @State UOpenDriveMap) :
  let Name := RemovePIEPrefix WITH_EDITOR eng WorldMapName in
  Name <> EmptyString ->
  GetXODR WITH_EDITOR eng WorldMapName (dir ++ Name)%string s =
  match FindFiles eng ((dir ++ Name) ++ "/OpenDrive/")%string "*.xodr" true false with
  | [] =>
      (EmptyString,
       after s [CallFindFilesRecursive ((dir ++ Name) ++ "/OpenDrive/")%string "*.xodr"
                                       true false false;
                LogLine Error
                  ("Failed to find OpenDrive file for map '" ++ Name ++ "'")%string])
  | first :: _ =>
      match LoadFile eng first with
      | Some text =>
          (text,
           after s [CallFindFilesRecursive ((dir ++ Name) ++ "/OpenDrive/")%string
                                           "*.xodr" true false false;
                    CallLoadFileToString first;
                    LogLine Log ("Loaded OpenDrive file '" ++ first ++ "'")%string])
      | None =>
          (EmptyString,
           after s [CallFindFilesRecursive ((dir ++ Name) ++ "/OpenDrive/")%string
                                           "*.xodr" true false false;
                    CallLoadFileToString first;
                    LogLine Error
                      ("Failed to load OpenDrive file '" ++ first ++ "'")%string])
      end
  end.
Proof.
  intros Name HName.
  pose proof (GetXODR_run WorldMapName (dir ++ Name)%string s) as R.
  cbv zeta in R. fold Name in R.
  rewrite (EndsWith_app _ dir Name HName) in R.
  cbn [append] in R. exact R.
Qed.

(** LoadXODR leaves the map objects alone and only adds events. *)
Lemma LoadXODR_state (MapName : FString) (s : @State UOpenDriveMap) :
  exists events, snd (LoadXODR WITH_EDITOR eng MapName s) = after s events.
Proof.
  rewrite LoadXODR_run.
  destruct (FindPathToXODRFile_state MapName s) as (ev & Hev & _).
  destruct (FindPathToXODRFile WITH_EDITOR eng MapName s) as [FilePath s1].
  cbn [snd] in Hev. subst s1.
  destruct (IsEmpty FilePath); [|destruct (LoadFile eng FilePath)];
    cbn [snd]; unfold after; cbn [trace objects]; rewrite <- app_assoc;
    eexists; reflexivity.
Qed.

(** X10: in an editor build LoadXODR returns for "UEDPIE_0_<rest>" the text
    that a build without the editor returns for <rest>, with the same
    events when a path is found; when none is found, the line in the log
    names the map as it was given, with the prefix. *)
Theorem LoadXODR_editor_prefix (rest : FString) (s : @State UOpenDriveMap) :
  fst (LoadXODR true eng ("UEDPIE_0_" ++ rest)%string s) =
  fst (LoadXODR false eng rest s) /\
  (fst (FindPathToXODRFile false eng rest s) <> EmptyString ->
   LoadXODR true eng ("UEDPIE_0_" ++ rest)%string s = LoadXODR false eng rest s) /\
  (fst (FindPathToXODRFile false eng rest s) = EmptyString ->
   snd (LoadXODR true eng ("UEDPIE_0_" ++ rest)%string s) =
   after (snd (FindPathToXODRFile false eng rest s))
         [LogLine Error
            ("Failed to find OpenDrive file for map 'UEDPIE_0_" ++ rest ++ "'")%string]).
Proof.
  assert (Hfind : FindPathToXODRFile true eng ("UEDPIE_0_" ++ rest)%string s =
                  FindPathToXODRFile false eng rest s).
  { unfold FindPathToXODRFile, RemovePIEPrefix, PIEPrefix.
    rewrite RemoveFromStart_app by discriminate. reflexivity. }
  rewrite !LoadXODR_run, Hfind.
  destruct (FindPathToXODRFile false eng rest s) as [FilePath s1]. cbn [fst snd].
  destruct (IsEmpty FilePath) eqn:E.
  - apply IsEmpty_true in E. subst FilePath.
    split; [reflexivity|]. split; [intros H; now destruct H | reflexivity].
  - split; [destruct (LoadFile eng FilePath); reflexivity|].
    split; [reflexivity|]. intros ->. discriminate E.
Qed.

End Readers.

Section Objects.
Context {UOpenDriveMap : Type}.
Variable WITH_EDITOR : bool.
Variable eng : Engine.
Variable NewObject : UOpenDriveMap.
Variable Load : UOpenDriveMap -> FString -> UOpenDriveMap.

(** X16: LoadOpenDriveMap keeps every map object that existed where it was
    and as it was, and keeps the events so far; it creates at most one
    object, and none when it returns the null pointer. *)
Theorem LoadOpenDriveMap_keeps_objects (MapName : FString) (s : @State UOpenDriveMap) :
  let result := LoadOpenDriveMap WITH_EDITOR eng NewObject Load MapName s in
  (forall p m, nth_error (objects s) p = Some m ->
               nth_error (objects (snd result)) p = Some m) /\
  (exists events, trace (snd result) = trace s ++ events) /\
  (fst result = None -> objects (snd result) = objects s) /\
  (forall p, fst result = Some p ->
             p = List.length (objects s) /\
             List.length (objects (snd result)) = S (List.length (objects s))).
Proof.
  intros result. subst result. rewrite LoadOpenDriveMap_run.
  destruct (LoadXODR_state WITH_EDITOR eng MapName s) as [ev Hev].
  destruct (LoadXODR WITH_EDITOR eng MapName s) as [content s1].
  cbn [snd] in Hev. subst s1.
  destruct (IsEmpty content); cbn [fst snd trace objects after].
  - split; [auto|]. split; [eauto|]. split; [reflexivity | discriminate].
  - split; [|split; [eauto | split; [discriminate|]]].
    + intros p m H. rewrite nth_error_app1; [exact H|].
      apply nth_error_Some. rewrite H. discriminate.
    + intros p [= <-]. split; [reflexivity|].
      rewrite length_app. cbn [List.length]. lia.
Qed.

(** X17: a file that is found and read but is empty makes LoadOpenDriveMap
    return the null pointer: the log says "Loaded OpenDrive file", no line
    is logged as an error, and no object is created. *)
Theorem LoadOpenDriveMap_empty_file (MapName : FString) (s : @State UOpenDriveMap) :
  let FilePath := fst (FindPathToXODRFile WITH_EDITOR eng MapName s) in
  FilePath <> EmptyString ->
  LoadFile eng FilePath = Some EmptyString ->
  LoadOpenDriveMap WITH_EDITOR eng NewObject Load MapName s =
  (None,
   after (snd (FindPathToXODRFile WITH_EDITOR eng MapName s))
         [CallLoadFileToString FilePath;
          LogLine Log ("Loaded OpenDrive file '" ++ FilePath ++ "'")%string]) /\
  existsb is_error
          (trace (snd (LoadOpenDriveMap WITH_EDITOR eng NewObject Load MapName s))) =
  existsb is_error (trace s).
Proof.
  intros FilePath Hne Hload. subst FilePath.
  rewrite LoadOpenDriveMap_run, LoadXODR_run.
  destruct (FindPathToXODRFile_state WITH_EDITOR eng MapName s) as (ev & Hev & Hlog).
  destruct (FindPathToXODRFile WITH_EDITOR eng MapName s) as [FilePath s1].
  cbn [fst snd] in *. subst s1.
  destruct (IsEmpty FilePath) eqn:E; [apply IsEmpty_true in E; contradiction|].
  rewrite Hload. cbn [IsEmpty fst snd]. split; [reflexivity|].
  unfold after. cbn [trace]. rewrite !existsb_app. cbn [existsb is_error].
  rewrite !orb_false_r.
  replace (existsb is_error ev) with false; [apply orb_false_r|].
  symmetry. clear -Hlog. induction ev as [|e ev IH]; [reflexivity|].
  cbn [existsb] in *. apply orb_false_elim in Hlog as [He Hev].
  rewrite (IH Hev), orb_false_r. destruct e as [| | |[] ?]; try reflexivity;
    discriminate He.
Qed.

(** X18: when the engine finds no world for the context object,
    LoadCurrentOpenDriveMap returns the null pointer and does nothing of
    its own: the events are what the engine logs for the failed lookup,
    there is no call to the file manager and no new map object.  A pointer
    that is not null means that a world was found, with nothing logged for
    the lookup, and that LoadXODR returned text for its map name. *)
Theorem LoadCurrentOpenDriveMap_world (World : option FString)
        (WorldLookupLog : list Event) (s : @State UOpenDriveMap) :
  (World = None ->
   LoadCurrentOpenDriveMap WITH_EDITOR eng NewObject Load World WorldLookupLog s =
   (None, after s WorldLookupLog)) /\
  (forall p,
      fst (LoadCurrentOpenDriveMap WITH_EDITOR eng NewObject Load World
                                   WorldLookupLog s) = Some p ->
      exists MapName,
        World = Some MapName /\
        fst (LoadXODR WITH_EDITOR eng MapName s) <> EmptyString /\
        LoadCurrentOpenDriveMap WITH_EDITOR eng NewObject Load World WorldLookupLog s =
        LoadOpenDriveMap WITH_EDITOR eng NewObject Load MapName s).
Proof.
  split; [intros ->; reflexivity|].
  intros p H. destruct World as [MapName|]; [|discriminate H].
  exists MapName.
  change (LoadCurrentOpenDriveMap WITH_EDITOR eng NewObject Load (Some MapName)
                                  WorldLookupLog s)
    with (LoadOpenDriveMap WITH_EDITOR eng NewObject Load MapName s) in *.
  split; [reflexivity|]. split; [|reflexivity].
  rewrite LoadOpenDriveMap_run in H.
  destruct (LoadXODR WITH_EDITOR eng MapName s) as [content s1]. cbn [fst].
  destruct (IsEmpty content) eqn:E; [discriminate H|].
  intros ->. discriminate E.
Qed.

End Objects.

(** On the content directory of [Demo]: Town04 is found by the search and
    read. *)
Lemma LoadXODR_content_from_file_witness :
  LoadFile (Demo.content IgnoreCase) "/Game/Content/Custom/Town04.xodr" =
  Some (fst (LoadXODR false (Demo.content IgnoreCase) "Town04" Demo.empty_state)) /\
  fst (LoadXODR false (Demo.content IgnoreCase) "Town04" Demo.empty_state) =
  "<OpenDRIVE>Town04</OpenDRIVE>"%string.
Proof.
  split; [|reflexivity].
  apply (LoadXODR_content_from_file false (Demo.content IgnoreCase)
           "Town04" Demo.empty_state).
  discriminate.
Defined.

(** Town02 is found and cannot be read; Town05 is not found. *)
Lemma LoadXODR_failure_logged_witness :
  fst (LoadXODR false (Demo.content IgnoreCase) "Town02" Demo.empty_state) = EmptyString /\
  fst (LoadXODR false (Demo.content IgnoreCase) "Town05" Demo.empty_state) = EmptyString.
Proof.
  split.
  - apply (LoadXODR_failure_logged false (Demo.content IgnoreCase)
             "Town02" Demo.empty_state).
    right. reflexivity.
  - apply (LoadXODR_failure_logged false (Demo.content IgnoreCase)
             "Town05" Demo.empty_state).
    left. reflexivity.
Defined.

Lemma GetXODRByPath_unreadable_silent_witness :
  filter is_log
         (trace (snd (GetXODRByPath false (Demo.content IgnoreCase)
                                    "/Game/Content/Custom/Town02.xodr" "Town02"
                                    Demo.empty_state))) = [].
Proof.
  apply (GetXODRByPath_unreadable_silent false (Demo.content IgnoreCase)
           "/Game/Content/Custom/Town02.xodr" "Town02"
           "/Game/Content/Custom/Town02.xodr" [] Demo.empty_state);
    reflexivity.
Defined.

Lemma GetXODR_failure_logged_witness :
  fst (GetXODR false (Demo.content IgnoreCase) "Town02" "/Game/Content/Custom"
               Demo.empty_state) = EmptyString /\
  fst (GetXODR false (Demo.content IgnoreCase) "Town05" "/Game/Content/Custom"
               Demo.empty_state) = EmptyString.
Proof.
  split.
  - apply (GetXODR_failure_logged false (Demo.content IgnoreCase)
             "Town02" "/Game/Content/Custom" Demo.empty_state).
    right. exists "/Game/Content/Custom/Town02.xodr"%string. split; reflexivity.
  - apply (GetXODR_failure_logged false (Demo.content IgnoreCase)
             "Town05" "/Game/Content/Custom" Demo.empty_state).
    left. reflexivity.
Defined.

Lemma GetXODRByPath_content_from_first_witness :
  exists first,
    hd_error (FindFiles (Demo.content IgnoreCase) "/Game/Content/Custom/"
                        "Town04.xodr" true false) = Some first /\
    LoadFile (Demo.content IgnoreCase) first = Some "<OpenDRIVE>Town04</OpenDRIVE>"%string /\
    snd (GetXODRByPath false (Demo.content IgnoreCase)
                       "/Game/Content/Custom/Town04.xodr" "Town04" Demo.empty_state) =
    after Demo.empty_state
          [CallFindFilesRecursive "/Game/Content/Custom/" "Town04.xodr" true false false;
           CallLoadFileToString first;
           LogLine Log ("Loaded OpenDrive file '" ++ first ++ "'")%string].
Proof.
  apply (GetXODRByPath_content_from_first false (Demo.content IgnoreCase)
           "/Game/Content/Custom/Town04.xodr" "Town04" Demo.empty_state).
  discriminate.
Defined.

(** The path of Town04's file gives its directory; a path with another
    ending is searched as it is. *)
Lemma GetXODRByPath_search_folder_witness :
  (exists pattern rest,
      trace (snd (GetXODRByPath false (Demo.content IgnoreCase)
                                "/Game/Content/Custom/Town04.xodr" "Town04"
                                Demo.empty_state)) =
      CallFindFilesRecursive "/Game/Content/Custom/" pattern true false false :: rest) /\
  (exists pattern rest,
      trace (snd (GetXODRByPath false (Demo.content IgnoreCase)
                                "/Game/Content/Custom" "Town04" Demo.empty_state)) =
      CallFindFilesRecursive "/Game/Content/Custom" pattern true false false :: rest).
Proof.
  split.
  - apply (proj1 (GetXODRByPath_search_folder false (Demo.content IgnoreCase)
                    "Town04" Demo.empty_state) "/Game/Content/Custom/"%string).
  - apply (proj2 (GetXODRByPath_search_folder false (Demo.content IgnoreCase)
                    "Town04" Demo.empty_state) "/Game/Content/Custom"%string).
    reflexivity.
Defined.

(** The folder of Town05 holds Other.xodr only, and that is what GetXODR
    returns for Town05; when the search reports an unreadable file before
    it, nothing is returned. *)
Lemma GetXODR_wildcard_witness :
  GetXODR false (map_folder IgnoreCase) "Town05" "/Game/Maps/Town05"
          (UOpenDriveMap := list FString) Demo.empty_state =
  ("<OpenDRIVE>Other</OpenDRIVE>"%string,
   after Demo.empty_state
         [CallFindFilesRecursive "/Game/Maps/Town05/OpenDrive/" "*.xodr" true false false;
          CallLoadFileToString "/Game/Maps/Town05/OpenDrive/Other.xodr";
          LogLine Log "Loaded OpenDrive file '/Game/Maps/Town05/OpenDrive/Other.xodr'"]) /\
  GetXODR false two_files "Town05" "/Game/Maps/Town05"
          (UOpenDriveMap := list FString) Demo.empty_state =
  (EmptyString,
   after Demo.empty_state
         [CallFindFilesRecursive "/Game/Maps/Town05/OpenDrive/" "*.xodr" true false false;
          CallLoadFileToString "/Game/Maps/Town05/OpenDrive/Locked.xodr";
          LogLine Error
            "Failed to load OpenDrive file '/Game/Maps/Town05/OpenDrive/Locked.xodr'"]).
Proof.
  split.
  - apply (GetXODR_wildcard false (map_folder IgnoreCase) "/Game/Maps/"%string "Town05"
             Demo.empty_state).
    discriminate.
  - apply (GetXODR_wildcard false two_files "/Game/Maps/"%string "Town05"
             Demo.empty_state).
    discriminate.
Defined.

Lemma LoadXODR_editor_prefix_witness :
  LoadXODR true (Demo.content IgnoreCase) "UEDPIE_0_Town01" Demo.empty_state =
  LoadXODR false (Demo.content IgnoreCase) "Town01" Demo.empty_state /\
  snd (LoadXODR true (Demo.content IgnoreCase) "UEDPIE_0_Town05" Demo.empty_state) =
  after Demo.empty_state
        [CallFileExists "/Game/Content/Carla/Maps/OpenDrive/Town05.xodr";
         CallFindFilesRecursive "/Game/Content/" "Town05.xodr" true false false;
         LogLine Error "Failed to find OpenDrive file for map 'UEDPIE_0_Town05'"].
Proof.
  split.
  - apply (proj1 (proj2 (LoadXODR_editor_prefix (Demo.content IgnoreCase)
                           "Town01" Demo.empty_state))).
    discriminate.
  - apply (proj2 (proj2 (LoadXODR_editor_prefix (Demo.content IgnoreCase)
                           "Town05" Demo.empty_state))).
    reflexivity.
Defined.

(** Town03's file is there and empty. *)
Lemma LoadOpenDriveMap_empty_file_witness :
  LoadOpenDriveMap false empty_file [] Demo.record_load "Town03" Demo.empty_state =
  (None,
   after Demo.empty_state
         [CallFileExists "/Game/Content/Carla/Maps/OpenDrive/Town03.xodr";
          CallLoadFileToString "/Game/Content/Carla/Maps/OpenDrive/Town03.xodr";
          LogLine Log
            "Loaded OpenDrive file '/Game/Content/Carla/Maps/OpenDrive/Town03.xodr'"]).
Proof.
  apply (LoadOpenDriveMap_empty_file false empty_file [] Demo.record_load
           "Town03" Demo.empty_state).
  - discriminate.
  - reflexivity.
Defined.

Lemma LoadCurrentOpenDriveMap_world_witness :
  (exists MapName,
      Some "Town01"%string = Some MapName /\
      fst (LoadXODR false (Demo.content IgnoreCase) MapName Demo.empty_state)
        <> EmptyString /\
      LoadCurrentOpenDriveMap false (Demo.content IgnoreCase) [] Demo.record_load
                              (Some "Town01"%string)
                              [LogLine Error "no world for the context object"]
                              Demo.empty_state =
      LoadOpenDriveMap false (Demo.content IgnoreCase) [] Demo.record_load
                       MapName Demo.empty_state) /\
  LoadCurrentOpenDriveMap false (Demo.content IgnoreCase) [] Demo.record_load
                          None [LogLine Error "no world for the context object"]
                          Demo.empty_state =
  (None, after Demo.empty_state [LogLine Error "no world for the context object"]).
Proof.
  split.
  - apply (proj2 (LoadCurrentOpenDriveMap_world false (Demo.content IgnoreCase) []
                    Demo.record_load (Some "Town01"%string)
                    [LogLine Error "no world for the context object"]
                    Demo.empty_state) O).
    reflexivity.
  - apply (proj1 (LoadCurrentOpenDriveMap_world false (Demo.content IgnoreCase) []
                    Demo.record_load None
                    [LogLine Error "no world for the context object"]
                    Demo.empty_state)).
    reflexivity.
Defined.

End OpenDriveCoverage.

(** ** The example client: how runs end *)

Module CppClientCoverage.
Import CppClient Conditions CppClientFacts.
Local Open Scope outcome_scope.

Section Runs.
Variables Sim RNG Client World BlueprintLibrary ActorBlueprint
          ActorAttribute Map Transform Actor Control : Type.
Variable lib : Library Sim RNG Client World BlueprintLibrary ActorBlueprint
                       ActorAttribute Map Transform Actor Control.

(** X2: when std::stoi throws on the port argument, main returns 2 having
    printed "Exception: " and the exception's message, and no call into the
    client library has been made. *)
Theorem main_bad_port (argv0 host arg2 : string) (c : exn_class) (what : string)
        (p : Process Sim) :
  stoi arg2 = Throw (StdException c what) ->
  main lib 3 [argv0; host; arg2] p =
  (Ret 2, mkProcess (stdout p ++ nl ++ "Exception: " ++ what ++ nl) (sim p)).
Proof.
  intros E. unfold main, main_try. unfold bind at 1, lift at 1.
  rewrite ParseArguments_3. cbn [argv_at nth_error obind]. rewrite E. cbn [obind].
  destruct (stoi_throws _ _ E) as [[= -> ->] | [= -> ->]]; cbn [is_timeout];
    rewrite print_three; now rewrite !append_assoc.
Qed.

(** X3: when the server offers no map, main returns 2 with the text of
    RandomChoice's failed check printed after the two version lines; the
    last call into the library is GetAvailableMaps, so no world is
    loaded. *)
Theorem main_no_maps (argc : Z) (argv : list string) (host : string) (port : Z)
        (p : Process Sim) (seed : Z) (client : Client) (cv sv : string)
        (s1 s2 s3 s4 s5 s6 : Sim) :
  ParseArguments argc argv = Ret (host, port) ->
  random_device _ _ _ _ _ _ _ _ _ _ _ lib (sim p) = (Ret seed, s1) ->
  make_Client _ _ _ _ _ _ _ _ _ _ _ lib host port s1 = (Ret client, s2) ->
  SetTimeout _ _ _ _ _ _ _ _ _ _ _ lib client 40 s2 = (Ret tt, s3) ->
  GetClientVersion _ _ _ _ _ _ _ _ _ _ _ lib client s3 = (Ret cv, s4) ->
  GetServerVersion _ _ _ _ _ _ _ _ _ _ _ lib client s4 = (Ret sv, s5) ->
  GetAvailableMaps _ _ _ _ _ _ _ _ _ _ _ lib client s5 = (Ret [], s6) ->
  main lib argc argv p =
  (Ret 2,
   mkProcess (stdout p ++ "Client API version : " ++ cv ++ nl ++
              "Server API version : " ++ sv ++ nl ++
              nl ++ "Exception: range.size() > 0u" ++ nl) s6).
Proof.
  intros HP H1 H2 H3 H4 H5 H6.
  unfold main, main_try, bind, lift, invoke, print, choose.
  rewrite HP. cbn [sim stdout]. rewrite H1. cbn [sim stdout].
  rewrite H2. cbn [sim stdout]. rewrite H3. cbn [sim stdout].
  rewrite H4. cbn [sim stdout]. rewrite H5. cbn [sim stdout]. rewrite H6.
  cbn [RandomChoice size List.length EXPECT_TRUE Z.of_nat Z.ltb Z.compare
       is_timeout ret sim stdout].
  now rewrite !append_assoc.
Qed.

Lemma bind_Ret_inv {A B : Type} (m : M Sim A) (k : A -> M Sim B)
      (p p' : Process Sim) (b : B) :
  bind m k p = (Ret b, p') ->
  exists a q, m p = (Ret a, q) /\ k a q = (Ret b, p').
Proof.
  unfold bind. destruct (m p) as [[a | e |] q]; try discriminate. eauto.
Qed.

Lemma extends_refl (p : Process Sim) : extends p p.
Proof. exists "". now rewrite append_nil_r. Qed.

Lemma extends_trans (p q r : Process Sim) : extends p q -> extends q r -> extends p r.
Proof.
  intros [o1 H1] [o2 H2]. exists (o1 ++ o2). now rewrite H2, H1, append_assoc.
Qed.

Lemma appends_extends {A : Type} (m : M Sim A) (p q : Process Sim) (o : outcome A) :
  appends m -> m p = (o, q) -> extends p q.
Proof. intros Hm E. exact (Hm _ _ _ E). Qed.

Ltac solve_appends :=
  repeat first
    [ apply appends_ret | apply appends_lift | apply appends_invoke
    | apply appends_print | apply appends_choose
    | apply appends_bind; [| intros ?]
    | match goal with
      | |- appends (match ?x with (_, _) => _ end) => destruct x
      | |- appends (if ?b then _ else _) => destruct b
      end ].

Ltac invert_bind :=
  match goal with
  | Hx : extends ?p ?q, E : bind ?m ?k ?q = (Ret ?b, ?p') |- _ =>
      lazymatch m with
      | context [@Destroy] => fail
      | _ => idtac
      end;
      let a := fresh "a" in
      let q1 := fresh "q" in
      let E1 := fresh "E" in
      apply bind_Ret_inv in E; destruct E as (a & q1 & E1 & E);
      assert (extends p q1)
        by (apply (extends_trans _ _ _ Hx);
            eapply appends_extends; [| exact E1]; solve_appends);
      clear Hx; cbv beta in E;
      try match type of E with
          | context [match a with (_, _) => _ end] => destruct a
          end;
      cbv beta iota zeta in E
  end.

(** X4: main returns 0 only when the arguments were accepted and the run
    reached the end of the try block: SpawnActor returned the vehicle,
    ApplyControl was called on that vehicle with the full throttle, the
    last call into the library was Destroy on that same vehicle, which
    returned, and the output since the start ends with the line "Actors
    destroyed.". *)
Theorem main_exit_zero (argc : Z) (argv : list string) (p p' : Process Sim) :
  main lib argc argv p = (Ret 0, p') ->
  (exists host port, ParseArguments argc argv = Ret (host, port)) /\
  (exists world blueprint transform vehicle s0 s1 s2 s3 s4 destroyed,
      SpawnActor _ _ _ _ _ _ _ _ _ _ _ lib world blueprint transform s0
        = (Ret vehicle, s1) /\
      ApplyControl _ _ _ _ _ _ _ _ _ _ _ lib vehicle
                   (full_throttle _ _ _ _ _ _ _ _ _ _ _ lib) s2 = (Ret tt, s3) /\
      Destroy _ _ _ _ _ _ _ _ _ _ _ lib vehicle s4 = (Ret destroyed, sim p')) /\
  (exists out, stdout p' = stdout p ++ out ++ "Actors destroyed." ++ nl).
Proof.
  intros Hmain.
  assert (E : main_try lib argc argv p = (Ret tt, p')).
  { unfold main in Hmain.
    destruct (main_try lib argc argv p) as [[[] | [c what|] |] q].
    - now injection Hmain as <-.
    - destruct (is_timeout c); rewrite print_three in Hmain; discriminate Hmain.
    - discriminate Hmain.
    - discriminate Hmain. }
  clear Hmain. unfold main_try in E.
  apply bind_Ret_inv in E. destruct E as ([host port] & q0 & E0 & E).
  unfold lift in E0. injection E0 as HP <-.
  split; [now exists host, port|].
  pose proof (extends_refl p) as Hx.
  repeat invert_bind.
  unfold bind, invoke, print in E.
  match type of E with
  | context [Destroy _ _ _ _ _ _ _ _ _ _ _ lib ?v ?s] =>
      destruct (Destroy _ _ _ _ _ _ _ _ _ _ _ lib v s) as [[d | e |] s'] eqn:ED;
        try discriminate E
  end.
  injection E as <-. cbn [stdout sim]. split.
  - match goal with
    | Hs : invoke (SpawnActor _ _ _ _ _ _ _ _ _ _ _ lib ?w ?b ?t) ?qs = (Ret ?v, _),
      Ha : invoke (ApplyControl _ _ _ _ _ _ _ _ _ _ _ lib ?v _) ?qa = (Ret ?u, _),
      Hd : Destroy _ _ _ _ _ _ _ _ _ _ _ lib ?v ?sd = _ |- _ =>
        unfold invoke in Hs, Ha;
        destruct (SpawnActor _ _ _ _ _ _ _ _ _ _ _ lib w b t (sim qs))
          as [os ss] eqn:ES;
        destruct (ApplyControl _ _ _ _ _ _ _ _ _ _ _ lib v
                    (full_throttle _ _ _ _ _ _ _ _ _ _ _ lib) (sim qa))
          as [oa sa] eqn:EA;
        injection Hs as -> _; injection Ha as -> _; destruct u;
        exists w, b, t, v, (sim qs), ss, (sim qa), sa, sd, d;
        split; [exact ES | split; [exact EA | exact Hd]]
    end.
  - match goal with
    | Hx : extends p _ |- _ => destruct Hx as [out Hout]
    end.
    exists out. now rewrite Hout, !append_assoc.
Qed.

Lemma total_ret {A : Type} (a : A) (Q : A -> Prop) :
  Q a -> @total Sim A (ret a) Q.
Proof. intros H p. now exists a, p. Qed.

Lemma total_lift {A : Type} (a : A) : @total Sim A (lift (Ret a)) (fun _ => True).
Proof. intros p. now exists a, p. Qed.

Lemma total_print (s : string) : @total Sim unit (print s) (fun _ => True).
Proof. intros p. eexists. eexists. split; [reflexivity | exact I]. Qed.

Lemma total_invoke {A : Type} (c : call Sim A) :
  returns c -> total (invoke c) (fun _ => True).
Proof.
  intros H p. destruct (H (sim p)) as (a & s' & E).
  exists a, (mkProcess (stdout p) s'). unfold invoke. now rewrite E.
Qed.

Lemma total_invoke_list {A : Type} (c : call Sim (list A)) :
  returns c -> never_empty c -> total (invoke c) (fun l => l <> []).
Proof.
  intros H Hne p. destruct (H (sim p)) as (a & s' & E).
  exists a, (mkProcess (stdout p) s'). unfold invoke. rewrite E.
  split; [reflexivity | exact (Hne _ _ _ E)].
Qed.

Lemma total_choose {T : Type} (range : list T) (rng : RNG) :
  (forall a b g, a <= b ->
                 a <= fst (uniform_int_distribution _ _ _ _ _ _ _ _ _ _ _ lib a b g) <= b) ->
  range <> [] ->
  total (choose lib range rng) (fun _ => True).
Proof.
  intros Hd Hne p. unfold choose, RandomChoice, EXPECT_TRUE.
  pose proof (size_pos range Hne) as Hs.
  pose proof (size_minus_one range Hne) as Hb.
  replace (0 <? size range) with true by (symmetry; apply Z.ltb_lt; lia).
  pose proof (Hd 0 (size_t_sub (size range) 1)) as Hi.
  destruct (uniform_int_distribution _ _ _ _ _ _ _ _ _ _ _ lib 0
              (size_t_sub (size range) 1) rng) as [i rng'] eqn:Ed.
  specialize (Hi rng (proj1 Hb)). rewrite Ed in Hi. cbn [fst] in Hi.
  destruct (at_index_in range i) as (x & _ & _ & Hat); [lia|].
  rewrite Hat. now exists (x, rng'), p.
Qed.

Lemma total_bind {A B : Type} (m : M Sim A) (k : A -> M Sim B)
      (Q : A -> Prop) (R : B -> Prop) :
  total m Q -> (forall a, Q a -> total (k a) R) -> total (bind m k) R.
Proof.
  intros Hm Hk p. destruct (Hm p) as (a & q & E & Ha).
  destruct (Hk a Ha q) as (b & r & E' & Hb).
  exists b, r. unfold bind. rewrite E. now split.
Qed.

(** X5: with accepted arguments, a library and simulator that answer
    every call and offer at least one map, vehicle blueprint, colour and
    spawn point, and a distribution that keeps to its interval, main
    returns 0. *)
Theorem main_cooperative (argc : Z) (argv : list string) (host : string) (port : Z)
        (p : Process Sim) :
  cooperative lib ->
  ParseArguments argc argv = Ret (host, port) ->
  exists p', main lib argc argv p = (Ret 0, p').
Proof.
  intros C HP.
  assert (T : total (main_try lib argc argv) (fun _ => True)).
  { destruct C. unfold main_try. rewrite HP.
    repeat first
      [ apply total_print
      | apply total_lift
      | apply total_ret; exact I
      | apply total_choose; [assumption | assumption]
      | apply total_invoke_list; [solve [auto] | solve [auto]]
      | apply total_invoke; solve [auto]
      | eapply total_bind; [| intros ? ?]
      | match goal with
        | |- total (match ?x with (_, _) => _ end) _ => destruct x
        | |- total (if ?b then _ else _) _ => destruct b
        | |- total (let _ := _ in _) _ => cbv zeta
        end ]. }
  destruct (T p) as ([] & p' & E & _). exists p'. unfold main. now rewrite E.
Qed.

End Runs.

Section Singleton.
Context {RNG T : Type}.
Variable dist : Z -> Z -> RNG -> Z * RNG.
Hypothesis dist_range :
  forall a b g, a <= b -> a <= fst (dist a b g) <= b.

(** X7: from a range of one element RandomChoice returns that element,
    whatever the generator: the distribution is built on 0 and 0. *)
Theorem RandomChoice_singleton (x : T) (g : RNG) :
  RandomChoice dist [x] g = (Ret x, snd (dist 0 0 g)).
Proof.
  unfold RandomChoice. cbn [EXPECT_TRUE size List.length Z.of_nat Z.ltb Z.compare
                            Pos.of_succ_nat].
  change (size_t_sub 1 1) with 0.
  pose proof (dist_range 0 0 g ltac:(lia)) as H.
  destruct (dist 0 0 g) as [i g']. cbn [fst snd] in *.
  replace i with 0 by lia. reflexivity.
Qed.

End Singleton.

Lemma main_bad_count_witness :
  main (Demo.library (Demo.served "0.9.15") ["Town01"]) 2 ["client"; "localhost"]
       Demo.start =
  (Ret 2,
   mkProcess ("" ++ nl ++ "Exception: (argc == 1u) || (argc == 3u)" ++ nl) O).
Proof.
  apply (main_bad_count _ _ _ _ _ _ _ _ _ _ _
           (Demo.library (Demo.served "0.9.15") ["Town01"])
           2 ["client"; "localhost"] Demo.start);
    unfold INT_MIN, INT_MAX; lia.
Defined.

Lemma ParseArguments_defined_witness :
  ParseArguments 3 ["client"; "localhost"; "2000"] <> Undefined.
Proof.
  apply (ParseArguments_defined 3 ["client"; "localhost"; "2000"]).
  - unfold INT_MIN, INT_MAX. lia.
  - reflexivity.
Defined.

Lemma main_bad_port_witness :
  main (Demo.library (Demo.served "0.9.15") ["Town01"]) 3
       ["client"; "localhost"; "port"] Demo.start =
  (Ret 2, mkProcess ("" ++ nl ++ "Exception: " ++ "stoi" ++ nl) O).
Proof.
  apply (main_bad_port _ _ _ _ _ _ _ _ _ _ _
           (Demo.library (Demo.served "0.9.15") ["Town01"])
           "client" "localhost" "port" invalid_argument "stoi" Demo.start).
  reflexivity.
Defined.

Lemma main_no_maps_witness :
  main (Demo.library (Demo.served "0.9.15") []) 1 ["client"] Demo.start =
  (Ret 2,
   mkProcess ("" ++ "Client API version : " ++ "0.9.15" ++ nl ++
              "Server API version : " ++ "0.9.15" ++ nl ++
              nl ++ "Exception: range.size() > 0u" ++ nl) 6%nat).
Proof.
  apply (main_no_maps _ _ _ _ _ _ _ _ _ _ _ (Demo.library (Demo.served "0.9.15") [])
           1 ["client"] "localhost" 2000 Demo.start 7 tt "0.9.15" "0.9.15"
           1%nat 2%nat 3%nat 4%nat 5%nat 6%nat);
    reflexivity.
Defined.

Lemma main_exit_zero_witness :
  exists out,
    ("Client API version : 0.9.15" ++ nl ++
     "Server API version : 0.9.15" ++ nl ++
     "Loading world: Town02" ++ nl ++
     "Spawned vehicle.audi.tt 0,0,255" ++ nl ++
     "Actors destroyed." ++ nl) =
    "" ++ out ++ "Actors destroyed." ++ nl.
Proof.
  apply (proj2 (proj2 (main_exit_zero _ _ _ _ _ _ _ _ _ _ _
           (Demo.library (Demo.served "0.9.15") ["Town01"; "Town02"])
           1 ["client"] Demo.start
           (mkProcess ("Client API version : 0.9.15" ++ nl ++
                       "Server API version : 0.9.15" ++ nl ++
                       "Loading world: Town02" ++ nl ++
                       "Spawned vehicle.audi.tt 0,0,255" ++ nl ++
                       "Actors destroyed." ++ nl) 21%nat)
           ltac:(vm_compute; reflexivity)))).
Defined.

Lemma served_returns {A : Type} (a : A) : returns (Demo.served a).
Proof. intros s. now exists a, (S s). Qed.

Lemma served_never_empty {A : Type} (l : list A) :
  l <> [] -> never_empty (Demo.served l).
Proof. intros H s l' s' [= <- _]. exact H. Qed.

Lemma two_colours_cooperative : cooperative two_colours.
Proof.
  constructor; cbn [two_colours uniform_int_distribution random_device make_Client
    SetTimeout GetClientVersion GetServerVersion GetAvailableMaps LoadWorld
    GetBlueprintLibrary Filter ContainsAttribute GetAttribute GetRecommendedValues
    SetAttribute GetMap GetRecommendedSpawnPoints SpawnActor GetDisplayId
    ApplyControl GetSpectator SetTransform Destroy]; intros;
    try apply counter_dist_range; try assumption;
    try apply served_returns; try (apply served_never_empty; discriminate).
Qed.

Lemma main_cooperative_witness :
  exists p', main two_colours 1 ["client"] Demo.start = (Ret 0, p').
Proof.
  apply (main_cooperative _ _ _ _ _ _ _ _ _ _ _ two_colours
           1 ["client"] "localhost" 2000 Demo.start two_colours_cooperative).
  reflexivity.
Defined.

Lemma RandomChoice_singleton_witness :
  RandomChoice Demo.counter_dist ["Town01"] 7 =
  (Ret "Town01", snd (Demo.counter_dist 0 0 7)).
Proof.
  apply (RandomChoice_singleton Demo.counter_dist counter_dist_range "Town01" 7).
Defined.

End CppClientCoverage.
